(** * RangeIterator: the stateful iteration cursor of [nodes/nodes.py]

    A shallow embedding of [RangeIterator.range_iterator] together with the
    Python built-ins it relies on ([str.strip], [str.split], [float], [int],
    list indexing), followed by the properties of the cursor.

    Conventions.
    - Python [int] is [Z]; Python [float] is an IEEE binary64 value, kept as
      a [spec_float] of the Standard Library (precision 53, [emax] 1024).
    - A Python [str] is a [string]; a character is a code point below 256.
    - The instance attributes ([self.current_index], ...) form the record
      [State]; a call takes a state and returns the mutated state together
      with either the returned tuple or the exception that left the call. *)

From Stdlib Require Import ZArith List Bool Lia.
From Stdlib Require Import Strings.String Strings.Ascii.
From Stdlib Require Import Floats.SpecFloat.
Import ListNotations.

Open Scope Z_scope.

(** ** Python strings *)

Module PyStr.

Definition code (c : ascii) : Z := Z.of_N (N_of_ascii c).

(** [str.isspace] on one character: the white space of [str.strip()]
    among the code points below 256. *)
Definition is_space (c : ascii) : bool :=
  let n := code c in
  ((9 <=? n) && (n <=? 13)) || ((28 <=? n) && (n <=? 32))
  || (n =? 133) || (n =? 160).

Definition is_digit (c : ascii) : bool :=
  let n := code c in (48 <=? n) && (n <=? 57).

Definition digit_value (c : ascii) : Z := code c - 48.

(** ASCII lower-casing of one character, as used by the case-insensitive
    match of [inf], [infinity] and [nan]. *)
Definition lower (c : ascii) : ascii :=
  let n := code c in
  if (65 <=? n) && (n <=? 90) then ascii_of_N (Z.to_N (n + 32)) else c.

Fixpoint lstrip_by (sp : ascii -> bool) (s : string) : string :=
  match s with
  | EmptyString => EmptyString
  | String c r => if sp c then lstrip_by sp r else s
  end.

Fixpoint rstrip_by (sp : ascii -> bool) (s : string) : string :=
  match s with
  | EmptyString => EmptyString
  | String c r =>
      match rstrip_by sp r with
      | EmptyString => if sp c then EmptyString else String c EmptyString
      | r' => String c r'
      end
  end.

Definition strip_by (sp : ascii -> bool) (s : string) : string :=
  rstrip_by sp (lstrip_by sp s).

(** [s.strip()] *)
Definition strip (s : string) : string := strip_by is_space s.

(** [s.split(sep)] for a one-character separator: never the empty list. *)
Fixpoint split (sep : ascii) (s : string) : list string :=
  match s with
  | EmptyString => [EmptyString]
  | String c r =>
      if Ascii.eqb c sep then EmptyString :: split sep r
      else match split sep r with
           | h :: t => String c h :: t
           | [] => [String c EmptyString]
           end
  end.

(** Truth value of a string: non-empty. *)
Definition truthy (s : string) : bool :=
  match s with EmptyString => false | String _ _ => true end.

End PyStr.

(** ** Python numbers *)

(** A number as the node handles it: an [int] or a [float]. *)
Inductive pyval : Type :=
| PInt (z : Z)
| PFloat (f : spec_float).

Module PyFloat.

Definition prec : Z := 53.
Definition emax : Z := 1024.

(** The binary64 value nearest to [m * 10 ^ e10] (ties to even), with the
    sign [neg]; overflow gives an infinity, underflow a zero. *)
Definition of_decimal (neg : bool) (m : Z) (e10 : Z) : spec_float :=
  match m with
  | Zpos p =>
      if 0 <=? e10
      then binary_round prec emax neg (p * Z.to_pos (10 ^ e10)) 0
      else
        let '(q, e2, loc) :=
          SFdiv_core_binary prec emax (Zpos p) 0 (10 ^ (- e10)) 0 in
        binary_round_aux prec emax neg q e2 loc
  | _ => S754_zero neg
  end.

(** Removal of the digit-group underscores of a numeric literal: each
    underscore has a digit right before it and a digit right after it. *)
Fixpoint strip_underscores (prev : option ascii) (s : list ascii)
  : option (list ascii) :=
  match s with
  | [] =>
      match prev with
      | Some "_"%char => None
      | _ => Some []
      end
  | c :: r =>
      let prev_digit :=
        match prev with Some p => PyStr.is_digit p | None => false end in
      let prev_under :=
        match prev with Some "_"%char => true | _ => false end in
      if Ascii.eqb c "_"
      then if prev_digit then strip_underscores (Some c) r else None
      else if prev_under && negb (PyStr.is_digit c) then None
           else option_map (cons c) (strip_underscores (Some c) r)
  end.

(** The longest prefix of digits and the rest. *)
Fixpoint span_digits (s : list ascii) : list ascii * list ascii :=
  match s with
  | c :: r =>
      if PyStr.is_digit c
      then let '(d, r') := span_digits r in (c :: d, r')
      else ([], s)
  | [] => ([], [])
  end.

(** Value of a digit sequence, most significant digit first. *)
Definition digits_value (d : list ascii) : Z :=
  fold_left (fun acc c => 10 * acc + PyStr.digit_value c) d 0.

Definition split_sign (s : list ascii) : bool * list ascii :=
  match s with
  | "-"%char :: r => (true, r)
  | "+"%char :: r => (false, r)
  | _ => (false, s)
  end.

(** The exponent part of a literal: nothing, or [e] or [E], an optional
    sign and at least one digit, up to the end of the text. *)
Definition parse_exponent (s : list ascii) : option Z :=
  match s with
  | [] => Some 0
  | c :: r =>
      if Ascii.eqb (PyStr.lower c) "e"
      then
        let '(neg, r1) := split_sign r in
        let '(d, r2) := span_digits r1 in
        match d, r2 with
        | _ :: _, [] => Some (if neg then - digits_value d else digits_value d)
        | _, _ => None
        end
      else None
  end.

(** [digits [. digits] [exponent]] or [. digits [exponent]] *)
Definition parse_decimal (neg : bool) (s : list ascii) : option spec_float :=
  let '(ip, r1) := span_digits s in
  let '(fp, r2) :=
    match r1 with
    | "."%char :: r => span_digits r
    | _ => ([], r1)
    end in
  match ip ++ fp with
  | [] => None
  | ds =>
      match parse_exponent r2 with
      | Some e => Some (of_decimal neg (digits_value ds)
                                   (e - Z.of_nat (List.length fp)))
      | None => None
      end
  end.

(** The white space that [float] itself drops around the literal: the
    C white space, and the two spaces above code point 127. *)
Definition is_float_space (c : ascii) : bool :=
  let n := PyStr.code c in
  ((9 <=? n) && (n <=? 13)) || (n =? 32) || (n =? 133) || (n =? 160).

(** The literal proper: a sign, then [inf], [infinity] or [nan] in any
    case, or a decimal number. *)
Definition parse_literal (s : string) : option spec_float :=
  let '(neg, body) := split_sign (list_ascii_of_string s) in
  let low := string_of_list_ascii (map PyStr.lower body) in
  if (String.eqb low "inf" || String.eqb low "infinity")%bool
  then Some (S754_infinity neg)
  else if String.eqb low "nan" then Some S754_nan
  else parse_decimal neg body.

(** [float(s)]; [None] is [ValueError]. *)
Definition float (s : string) : option spec_float :=
  match strip_underscores None (list_ascii_of_string s) with
  | None => None
  | Some cs =>
      parse_literal (PyStr.strip_by is_float_space (string_of_list_ascii cs))
  end.

(** Outcome of [int(x)] on a float. *)
Inductive int_result : Type :=
| IntOk (z : Z)
| IntOverflowError
| IntValueError.

(** [int(x)]: truncation toward zero; an infinity raises [OverflowError],
    a NaN raises [ValueError]. *)
Definition int (x : spec_float) : int_result :=
  match x with
  | S754_zero _ => IntOk 0
  | S754_infinity _ => IntOverflowError
  | S754_nan => IntValueError
  | S754_finite s m e =>
      let a := if 0 <=? e then Zpos m * 2 ^ e else Zpos m / 2 ^ (- e) in
      IntOk (if s then - a else a)
  end.

(** [x == z] for a float [x] and an int [z]: the comparison is exact. *)
Definition eq_int (x : spec_float) (z : Z) : bool :=
  match x with
  | S754_zero _ => z =? 0
  | S754_finite s m e =>
      if 0 <=? e
      then z =? (if s then - (Zpos m * 2 ^ e) else Zpos m * 2 ^ e)
      else (Zpos m mod 2 ^ (- e) =? 0)
           && (z =? (if s then - (Zpos m / 2 ^ (- e)) else Zpos m / 2 ^ (- e)))
  | _ => false
  end.

End PyFloat.

(** ** Python lists *)

Module PyList.

(** [l[i]]: positions [0 .. len-1], and [-len .. -1] counted from the
    end; [None] is [IndexError]. *)
Definition index {A : Type} (l : list A) (i : Z) : option A :=
  let n := Z.of_nat (List.length l) in
  if (0 <=? i) && (i <? n) then nth_error l (Z.to_nat i)
  else if (- n <=? i) && (i <? 0) then nth_error l (Z.to_nat (n + i))
  else None.

(** [len(l)] *)
Definition len {A : Type} (l : list A) : Z := Z.of_nat (List.length l).

End PyList.

(** ** The node *)

(** Exceptions that can leave [range_iterator]. *)
Inductive exn : Type :=
| IndexError
| OverflowError
| UnboundLocalError.

(** What a call produces: the returned tuple
    [(current_value, next_value, cycle_completed)], or an exception. *)
Inductive outcome : Type :=
| Returned (current_value next_value : pyval) (completed : bool)
| Raised (e : exn).

(** The instance attributes set up by [__init__]. *)
Record State : Type := mkState {
  current_index : option Z;
  direction : Z;
  cycle_completed : bool;
  prev_custom_values : string;
  prev_start : option Z;
  prev_end : option Z;
  prev_step : option Z;
  prev_mode : option string;
  prev_value_list_hash : option Z
}.

(** The arguments of one call ([**kwargs] is only printed). *)
Record Args : Type := mkArgs {
  start : Z;
  end_ : Z;
  step : Z;
  reset_counter : bool;
  custom_values : string;
  mode : string;
  value_list : option (list pyval)
}.

(** [__init__] *)
Definition init_state : State :=
  {| current_index := None;
     direction := 1;
     cycle_completed := false;
     prev_custom_values := EmptyString;
     prev_start := None;
     prev_end := None;
     prev_step := None;
     prev_mode := None;
     prev_value_list_hash := None |}.

Definition set_current_index (v : option Z) (st : State) : State :=
  mkState v (direction st) (cycle_completed st) (prev_custom_values st)
          (prev_start st) (prev_end st) (prev_step st) (prev_mode st)
          (prev_value_list_hash st).

Definition set_direction (v : Z) (st : State) : State :=
  mkState (current_index st) v (cycle_completed st) (prev_custom_values st)
          (prev_start st) (prev_end st) (prev_step st) (prev_mode st)
          (prev_value_list_hash st).

Definition set_cycle_completed (v : bool) (st : State) : State :=
  mkState (current_index st) (direction st) v (prev_custom_values st)
          (prev_start st) (prev_end st) (prev_step st) (prev_mode st)
          (prev_value_list_hash st).

Definition set_prev_custom_values (v : string) (st : State) : State :=
  mkState (current_index st) (direction st) (cycle_completed st) v
          (prev_start st) (prev_end st) (prev_step st) (prev_mode st)
          (prev_value_list_hash st).

Definition set_prev_start (v : option Z) (st : State) : State :=
  mkState (current_index st) (direction st) (cycle_completed st)
          (prev_custom_values st) v (prev_end st) (prev_step st)
          (prev_mode st) (prev_value_list_hash st).

Definition set_prev_end (v : option Z) (st : State) : State :=
  mkState (current_index st) (direction st) (cycle_completed st)
          (prev_custom_values st) (prev_start st) v (prev_step st)
          (prev_mode st) (prev_value_list_hash st).

Definition set_prev_step (v : option Z) (st : State) : State :=
  mkState (current_index st) (direction st) (cycle_completed st)
          (prev_custom_values st) (prev_start st) (prev_end st) v
          (prev_mode st) (prev_value_list_hash st).

Definition set_prev_mode (v : option string) (st : State) : State :=
  mkState (current_index st) (direction st) (cycle_completed st)
          (prev_custom_values st) (prev_start st) (prev_end st)
          (prev_step st) v (prev_value_list_hash st).

Definition set_prev_value_list_hash (v : option Z) (st : State) : State :=
  mkState (current_index st) (direction st) (cycle_completed st)
          (prev_custom_values st) (prev_start st) (prev_end st)
          (prev_step st) (prev_mode st) v.

(** [x != prev] where [prev] is an int or [None]. *)
Definition differs_Z (x : Z) (prev : option Z) : bool :=
  match prev with
  | Some p => negb (x =? p)
  | None => true
  end.

(** [x != prev] where [prev] is a string or [None]. *)
Definition differs_string (x : string) (prev : option string) : bool :=
  match prev with
  | Some p => negb (String.eqb x p)
  | None => true
  end.

(** Result of the two list comprehensions over the custom text. *)
Inductive parse_result : Type :=
| Parsed (custom_list : list pyval)
| ParseValueError
| ParseOverflowError.

(** [[float(x.strip()) for x in xs]]; [None] is [ValueError]. *)
Fixpoint floats_of (xs : list string) : option (list spec_float) :=
  match xs with
  | [] => Some []
  | x :: r =>
      match PyFloat.float (PyStr.strip x) with
      | None => None
      | Some f =>
          match floats_of r with
          | Some fs => Some (f :: fs)
          | None => None
          end
      end
  end.

(** [[int(x) if x == int(x) else x for x in fs]], left to right. *)
Fixpoint integral_to_int (fs : list spec_float) : parse_result :=
  match fs with
  | [] => Parsed []
  | x :: r =>
      match PyFloat.int x with
      | PyFloat.IntOverflowError => ParseOverflowError
      | PyFloat.IntValueError => ParseValueError
      | PyFloat.IntOk z =>
          let v := if PyFloat.eq_int x z then PInt z else PFloat x in
          match integral_to_int r with
          | Parsed l => Parsed (v :: l)
          | e => e
          end
      end
  end.

(** The body of the [try]: both comprehensions over
    [custom_values.split(',')]. *)
Definition parse_custom_values (custom_values : string) : parse_result :=
  match floats_of (PyStr.split ","%char custom_values) with
  | None => ParseValueError
  | Some fs => integral_to_int fs
  end.

(** After "PROCESS CUSTOM VALUES": [custom_list] and the possibly
    overridden [end], or the exception that [except ValueError] let pass. *)
Inductive custom_result : Type :=
| CustomDone (custom_list : option (list pyval)) (end' : Z)
| CustomRaised (e : exn).

Definition process_custom_values (custom_values : string) (end0 : Z)
  : custom_result :=
  if PyStr.truthy custom_values && PyStr.truthy (PyStr.strip custom_values)
  then
    match parse_custom_values custom_values with
    | Parsed l => CustomDone (Some l) (PyList.len l - 1)
    | ParseValueError => CustomDone None end0
    | ParseOverflowError => CustomRaised OverflowError
    end
  else CustomDone None end0.

(** [value_list = custom_list] when the latter is not [None]. *)
Definition effective_list (custom_list supplied : option (list pyval))
  : option (list pyval) :=
  match custom_list with
  | Some l => Some l
  | None => supplied
  end.

(** [using_list = value_list is not None and len(value_list) > 0] *)
Definition using_list_of (value_list : option (list pyval)) : bool :=
  match value_list with
  | Some l => 0 <? PyList.len l
  | None => false
  end.

(** The list that is indexed when [using_list] holds. *)
Definition list_of (value_list : option (list pyval)) : list pyval :=
  match value_list with
  | Some l => l
  | None => []
  end.

(** "INITIALIZE OR RESET STATE": returns the index now held. *)
Definition init_or_reset (should_reset : bool) (start0 : Z) (st : State)
  : Z * State :=
  let fresh :=
    set_cycle_completed false
      (set_direction 1 (set_current_index (Some start0) st)) in
  match current_index st with
  | None => (start0, fresh)
  | Some i => if should_reset then (start0, fresh) else (i, st)
  end.

(** The clamp of the index to the end of the list. *)
Definition clamp_to_list (using_list : bool) (list_end : Z) (i : Z) : Z :=
  if using_list && (list_end <? i) then list_end else i.

(** Value at an index: [value_list[i]] when a list is used, else [i]. *)
Definition value_at (using_list : bool) (l : list pyval) (i : Z)
  : option pyval :=
  if using_list then PyList.index l i else Some (PInt i).

(** "CALCULATE NEXT INDEX": the three branches on [mode].  The result is
    [next_index] and the state with [direction] and [cycle_completed] as the
    branch left them; [None] when no branch matched, so that [next_index]
    was never bound. *)
Definition next_step (st : State) (mode0 : string) (using_list : bool)
  (l : list pyval) (list_end start0 end' step0 i : Z) : option (Z * State) :=
  if String.eqb mode0 "cycle" then
    let next_index := i + step0 * direction st in
    if using_list then
      if list_end <? next_index
      then Some (next_index mod PyList.len l, set_cycle_completed true st)
      else Some (next_index, set_cycle_completed false st)
    else
      if end' <? next_index
      then Some (start0, set_cycle_completed true st)
      else Some (next_index, set_cycle_completed false st)
  else if String.eqb mode0 "bounce" then
    let next_index := i + step0 * direction st in
    if using_list then
      if list_end <? next_index
      then Some (list_end - (next_index - list_end),
                 set_cycle_completed false (set_direction (-1) st))
      else if next_index <? 0
      then Some (0 + (0 - next_index),
                 set_cycle_completed true (set_direction 1 st))
      else Some (next_index, set_cycle_completed false st)
    else
      if end' <? next_index
      then Some (end' - (next_index - end'),
                 set_cycle_completed false (set_direction (-1) st))
      else if next_index <? start0
      then Some (start0 + (start0 - next_index),
                 set_cycle_completed true (set_direction 1 st))
      else Some (next_index, set_cycle_completed false st)
  else if String.eqb mode0 "once" then
    let next_index := i + step0 in
    if using_list then
      if list_end <? next_index
      then Some (list_end, set_cycle_completed true st)
      else Some (next_index, set_cycle_completed false st)
    else
      if end' <? next_index
      then Some (end', set_cycle_completed true st)
      else Some (next_index, set_cycle_completed false st)
  else None.

(** The local variables in scope once the index has been initialised and
    clamped (the line "Store current index before updating").  [list_end]
    is [len(value_list) - 1]; the source binds it only when [using_list]
    holds and reads it only then. *)
Module Frame.
Record t : Type := mk {
  using_list : bool;
  value_list : list pyval;
  list_end : Z;
  end_ : Z;
  current_index : Z
}.
End Frame.

(** From "GET CURRENT VALUE" to the [return]: reads the current value,
    steps, commits [next_index] and reads the next value. *)
Definition advance (st : State) (a : Args) (f : Frame.t) : State * outcome :=
  let using_list := Frame.using_list f in
  let l := Frame.value_list f in
  let i := Frame.current_index f in
  match value_at using_list l i with
  | None => (st, Raised IndexError)
  | Some current_value =>
      match next_step st (mode a) using_list l (Frame.list_end f)
                      (start a) (Frame.end_ f) (step a) i with
      | None => (st, Raised UnboundLocalError)
      | Some (next_index, st) =>
          let st := set_current_index (Some next_index) st in
          match value_at using_list l next_index with
          | None => (st, Raised IndexError)
          | Some next_value =>
              (st, Returned current_value next_value (cycle_completed st))
          end
      end
  end.

(** From "PROCESS CUSTOM VALUES" to the clamp of the index, given the
    [should_reset] flag of the change detection. *)
Definition resolve_and_init (should_reset : bool) (st : State) (a : Args)
  : State * (Frame.t + exn) :=
  match process_custom_values (custom_values a) (end_ a) with
  | CustomRaised e => (st, inr e)
  | CustomDone custom_list end' =>
      let value_list := effective_list custom_list (value_list a) in
      let using_list := using_list_of value_list in
      let l := list_of value_list in
      let '(i, st) := init_or_reset should_reset (start a) st in
      let list_end := PyList.len l - 1 in
      let i := clamp_to_list using_list list_end i in
      (set_current_index (Some i) st,
       inl (Frame.mk using_list l list_end end' i))
  end.

Section Cursor.

(** [hash(str(value_list))]: Python salts string hashes per process, so
    the fingerprint is a parameter of the model. *)
Variable hash_str : list pyval -> Z.

(** "DETECT PARAMETER CHANGES": [should_reset] and the state with the
    snapshot brought up to date. *)
Definition detect_changes (st : State) (a : Args) : bool * State :=
  let should_reset := reset_counter a in
  let '(should_reset, st) :=
    if negb (String.eqb (custom_values a) (prev_custom_values st))
    then (true, set_prev_custom_values (custom_values a) st)
    else (should_reset, st) in
  let '(should_reset, st) :=
    if differs_Z (start a) (prev_start st)
    then (true, set_prev_start (Some (start a)) st)
    else (should_reset, st) in
  let '(should_reset, st) :=
    if differs_Z (end_ a) (prev_end st)
    then (true, set_prev_end (Some (end_ a)) st)
    else (should_reset, st) in
  let '(should_reset, st) :=
    if differs_Z (step a) (prev_step st)
    then (true, set_prev_step (Some (step a)) st)
    else (should_reset, st) in
  let '(should_reset, st) :=
    if differs_string (mode a) (prev_mode st)
    then (true, set_prev_mode (Some (mode a)) st)
    else (should_reset, st) in
  match value_list a with
  | Some l =>
      let current_hash := hash_str l in
      if differs_Z current_hash (prev_value_list_hash st)
      then (true, set_prev_value_list_hash (Some current_hash) st)
      else (should_reset, st)
  | None => (should_reset, st)
  end.

(** The call up to the point where the current value is about to be
    read: change detection, source resolution, initialisation, clamp. *)
Definition prepare (st : State) (a : Args) : State * (Frame.t + exn) :=
  let '(should_reset, st) := detect_changes st a in
  resolve_and_init should_reset st a.

(** [RangeIterator.range_iterator]: the state after the call and what the
    call produced. *)
Definition range_iterator (st : State) (a : Args) : State * outcome :=
  match prepare st a with
  | (st, inl f) => advance st a f
  | (st, inr e) => (st, Raised e)
  end.

(** The stored snapshot is the configuration [a]. *)
Definition snapshot_is (a : Args) (st : State) : Prop :=
  prev_custom_values st = custom_values a
  /\ prev_start st = Some (start a)
  /\ prev_end st = Some (end_ a)
  /\ prev_step st = Some (step a)
  /\ prev_mode st = Some (mode a)
  /\ (forall l, value_list a = Some l ->
                prev_value_list_hash st = Some (hash_str l)).

(** Successive calls on one instance: the final state and the outcomes
    in call order. *)
Fixpoint run (st : State) (calls : list Args) : State * list outcome :=
  match calls with
  | [] => (st, [])
  | a :: rest =>
      let '(st1, o) := range_iterator st a in
      let '(st2, os) := run st1 rest in
      (st2, o :: os)
  end.

End Cursor.

(** Copies of the arguments with one field replaced. *)
Definition with_step (s : Z) (a : Args) : Args :=
  mkArgs (start a) (end_ a) s (reset_counter a) (custom_values a) (mode a)
         (value_list a).

Definition with_custom_values (cv : string) (a : Args) : Args :=
  mkArgs (start a) (end_ a) (step a) (reset_counter a) cv (mode a)
         (value_list a).

Definition with_value_list (vl : option (list pyval)) (a : Args) : Args :=
  mkArgs (start a) (end_ a) (step a) (reset_counter a) (custom_values a)
         (mode a) vl.

(** The part of the state that the stepping reads and writes. *)
Definition cursor_of (st : State) : option Z * Z * bool :=
  (current_index st, direction st, cycle_completed st).

(** The part of the state that only the change detection writes. *)
Definition snapshot_of (st : State)
  : string * option Z * option Z * option Z * option string * option Z :=
  (prev_custom_values st, prev_start st, prev_end st, prev_step st,
   prev_mode st, prev_value_list_hash st).

(** The call after the change detection. *)
Definition finish (should_reset : bool) (st : State) (a : Args)
  : State * outcome :=
  match resolve_and_init should_reset st a with
  | (st, inl f) => advance st a f
  | (st, inr e) => (st, Raised e)
  end.

(** An element of the custom text that [float] rejects. *)
Definition non_numeric (x : string) : Prop :=
  PyFloat.float (PyStr.strip x) = None.

(** The custom text has a non-numeric element between its commas. *)
Definition malformed (custom_values : string) : Prop :=
  exists x, In x (PyStr.split ","%char custom_values) /\ non_numeric x.

(** Bounds of the index: the list positions, or the numeric range. *)
Definition upper_bound (f : Frame.t) : Z :=
  if Frame.using_list f then Frame.list_end f else Frame.end_ f.

Definition lower_bound (a : Args) (f : Frame.t) : Z :=
  if Frame.using_list f then 0 else start a.

(** The bounds of the index as the arguments fix them: the positions of
    the list in use, or [start] and the effective [end]; [None] when the
    parse of the custom text raises. *)
Definition bounds (a : Args) : option (Z * Z) :=
  match process_custom_values (custom_values a) (end_ a) with
  | CustomRaised _ => None
  | CustomDone custom_list end' =>
      let vl := effective_list custom_list (value_list a) in
      if using_list_of vl then Some (0, PyList.len (list_of vl) - 1)
      else Some (start a, end')
  end.

(** Arguments under which the stepping stays within the bounds [L .. U]:
    the bounds are not empty, [start] and [step] are not negative, the mode
    is one of the three, and a bounce step is no wider than the bounds. *)
Definition well_formed (a : Args) (L U : Z) : Prop :=
  bounds a = Some (L, U)
  /\ L <= U
  /\ 0 <= start a
  /\ 0 <= step a
  /\ (mode a = "cycle"%string
      \/ mode a = "once"%string
      \/ (mode a = "bounce"%string /\ step a <= U - L)).

(** The direction is +1, or -1 in bounce mode. *)
Definition direction_ok (a : Args) (st : State) : Prop :=
  direction st = 1 \/ (mode a = "bounce"%string /\ direction st = -1).

(** The stored index, when there is one, lies within [L .. U]. *)
Definition in_bounds (a : Args) (L U : Z) (st : State) : Prop :=
  direction_ok a st
  /\ match current_index st with
     | Some i => L <= i <= U
     | None => True
     end.

(** The call returned a tuple. *)
Definition returned (o : outcome) : Prop :=
  exists c n b, o = Returned c n b.

(** The completion flags of a sequence of outcomes ([None] for a call that
    raised). *)
Definition completed_flag (o : outcome) : option bool :=
  match o with
  | Returned _ _ c => Some c
  | Raised _ => None
  end.

(** ** Sample inputs

    Configurations and states used in the closed examples below.  The
    bounds respect the ranges of the node's input widgets
    ([start] 0..100, [end] 1..100, [step] 1..10). *)

(** A fingerprint function for the closed examples; they do not depend on
    which one is taken. *)
Definition sample_hash (l : list pyval) : Z := PyList.len l.

(** start=0, end=10, step=1, cycle, no custom text, no list. *)
Definition cycle_0_10 : Args := mkArgs 0 10 1 false "" "cycle" None.

(** start=0, end=3, step=1, once, no custom text, no list. *)
Definition once_0_3 : Args := mkArgs 0 3 1 false "" "once" None.

(** start=0, end=5, step=2, bounce, no custom text, no list. *)
Definition bounce_0_5_by_2 : Args := mkArgs 0 5 2 false "" "bounce" None.

(** start=0, end=1, step=5, bounce, no custom text, no list. *)
Definition bounce_0_1_by_5 : Args := mkArgs 0 1 5 false "" "bounce" None.

(** The two-element custom list "1,2" bounced with step 5. *)
Definition bounce_pair_by_5 : Args := mkArgs 0 10 5 false "1,2" "bounce" None.

(** The range 0..10 cycled while the custom text is the malformed "1,x,3". *)
Definition cycle_malformed : Args := mkArgs 0 10 1 false "1,x,3" "cycle" None.

(** The custom list "1,2,3" cycled, with a supplied list and [end] = 10. *)
Definition cycle_custom_123 : Args :=
  mkArgs 0 10 1 false "1,2,3" "cycle" (Some [PInt 7]).

(** The state reached from a fresh instance by [n] calls with [a]. *)
Definition after (n : nat) (a : Args) : State :=
  fst (run sample_hash init_state (repeat a n)).

(** ** The rest of the module

    [ContainsAnyDict], [IS_CHANGED] and [INPUT_TYPES], and the vocabulary
    of the further properties of [range_iterator]. *)

(** *** Dictionaries *)

Module PyDict.

(** A [dict] with string keys, in insertion order. *)
Definition t (V : Type) : Type := list (string * V).

(** [d.get(key)]; [None] when the key is absent. *)
Fixpoint get {V : Type} (d : t V) (key : string) : option V :=
  match d with
  | [] => None
  | (k, v) :: r => if String.eqb k key then Some v else get r key
  end.

(** [key in d] *)
Definition contains {V : Type} (d : t V) (key : string) : bool :=
  match get d key with
  | Some _ => true
  | None => false
  end.

(** [d[key] = v]: the value of a key already present is replaced in place,
    a new key goes to the end. *)
Fixpoint set {V : Type} (d : t V) (key : string) (v : V) : t V :=
  match d with
  | [] => [(key, v)]
  | (k, w) :: r =>
      if String.eqb k key then (k, v) :: r else (k, w) :: set r key v
  end.

(** [d.update(items)], which is also what [**m] does inside a dict
    display with the items of [m]. *)
Definition update {V : Type} (d : t V) (items : list (string * V)) : t V :=
  fold_left (fun acc kv => set acc (fst kv) (snd kv)) items d.

End PyDict.

(** [class ContainsAnyDict(dict)]: a dict whose membership test is
    overridden; everything else is inherited. *)
Module ContainsAnyDict.

Definition t (V : Type) : Type := PyDict.t V.

(** [ContainsAnyDict()] *)
Definition new {V : Type} : t V := [].

(** [__contains__] *)
Definition contains {V : Type} (d : t V) (key : string) : bool := true.

(** The items of the instance, inherited from [dict]: what [**d] unpacks. *)
Definition items {V : Type} (d : t V) : list (string * V) := d.

End ContainsAnyDict.

(** *** [IS_CHANGED] and [INPUT_TYPES] *)

(** [IS_CHANGED(cls, *args, **kwargs)]: [float("NaN")], whatever the
    arguments; [None] would be the [ValueError] of [float]. *)
Definition IS_CHANGED (args : list pyval) : option spec_float :=
  PyFloat.float "NaN".

(** [x == y] on two floats. *)
Definition float_eq (x y : spec_float) : bool :=
  SFeqb x y.

(** A value in the options of an input declaration. *)
Inductive option_value : Type :=
| OptStr (s : string)
| OptInt (z : Z)
| OptBool (b : bool).

(** The first component of an input declaration: a type name, or the list
    of choices of a combo. *)
Inductive input_kind : Type :=
| Kind (name : string)
| Combo (choices : list string).

(** An input declaration: the tuple [(kind,)] or [(kind, options)]. *)
Record input_decl : Type := mkDecl {
  kind : input_kind;
  options : option (PyDict.t option_value)
}.

(** The dict that [INPUT_TYPES] returns, by its three keys. *)
Record input_types : Type := mkInputTypes {
  required : PyDict.t input_decl;
  optional : PyDict.t input_decl;
  hidden : PyDict.t string
}.

Definition newline : string := String (ascii_of_nat 10) EmptyString.

(** [INPUT_TYPES(cls)] *)
Definition INPUT_TYPES : input_types :=
  {| required :=
       [("custom_values"%string,
         mkDecl (Kind "STRING")
           (Some [("default"%string, OptStr "");
                  ("multiline"%string, OptBool false);
                  ("tooltip"%string,
                   OptStr ("Enter comma separated number list" ++ newline
                           ++ "(e.g., 1, 1.4, 1.9, 2, 5, 11.1)" ++ newline
                           ++ "leave empty to use 'start' and 'end' parameters."))]));
        ("mode"%string,
         mkDecl (Combo ["cycle"; "bounce"; "once"]%string)
           (Some [("default"%string, OptStr "cycle")]));
        ("start"%string,
         mkDecl (Kind "INT")
           (Some [("default"%string, OptInt 0); ("min"%string, OptInt 0);
                  ("max"%string, OptInt 100)]));
        ("end"%string,
         mkDecl (Kind "INT")
           (Some [("default"%string, OptInt 10); ("min"%string, OptInt 1);
                  ("max"%string, OptInt 100)]));
        ("step"%string,
         mkDecl (Kind "INT")
           (Some [("default"%string, OptInt 1); ("min"%string, OptInt 1);
                  ("max"%string, OptInt 10)]));
        ("reset_counter"%string,
         mkDecl (Kind "BOOLEAN")
           (Some [("default"%string, OptBool false)]))];
     optional :=
       PyDict.update [("value_list"%string, mkDecl (Kind "LIST") None)]
                     (ContainsAnyDict.items ContainsAnyDict.new);
     hidden := [("unique_id"%string, "UNIQUE_ID"%string)] |}.

(** An integer option of a declaration. *)
Definition int_option (d : input_decl) (name : string) : option Z :=
  match options d with
  | Some o =>
      match PyDict.get o name with
      | Some (OptInt z) => Some z
      | _ => None
      end
  | None => None
  end.

(** The value [v] lies between the declared [min] and [max] of the
    required input [key]. *)
Definition int_admitted (key : string) (v : Z) : bool :=
  match PyDict.get (required INPUT_TYPES) key with
  | Some d =>
      match int_option d "min", int_option d "max" with
      | Some lo, Some hi => (lo <=? v) && (v <=? hi)
      | _, _ => false
      end
  | None => false
  end.

(** The string [s] is one of the declared choices of the required combo
    input [key]. *)
Definition choice_admitted (key : string) (s : string) : bool :=
  match PyDict.get (required INPUT_TYPES) key with
  | Some d =>
      match kind d with
      | Combo l => existsb (String.eqb s) l
      | Kind _ => false
      end
  | None => false
  end.

(** The arguments respect the declarations of [INPUT_TYPES]. *)
Definition admitted (a : Args) : bool :=
  int_admitted "start" (start a) && int_admitted "end" (end_ a)
  && int_admitted "step" (step a) && choice_admitted "mode" (mode a).

(** *** Vocabulary of runs *)

(** The state after [k] calls with the same arguments. *)
Definition state_after (hash_str : list pyval -> Z) (st : State) (a : Args)
  (k : nat) : State :=
  fst (run hash_str st (repeat a k)).

(** What the call after those [k] calls produces. *)
Definition outcome_after (hash_str : list pyval -> Z) (st : State) (a : Args)
  (k : nat) : outcome :=
  snd (range_iterator hash_str (state_after hash_str st a k) a).

(** The mode is one the node has a branch for. *)
Definition known_mode (m : string) : Prop :=
  m = "cycle"%string \/ m = "bounce"%string \/ m = "once"%string.

(** No list is in use under [a]: the custom text gives none and the
    supplied list is absent or empty. *)
Definition uses_range (a : Args) : Prop :=
  process_custom_values (custom_values a) (end_ a) = CustomDone None (end_ a)
  /\ using_list_of (value_list a) = false.

(** The list [l] is the one in use under [a]. *)
Definition uses_list (a : Args) (l : list pyval) : Prop :=
  l <> []
  /\ exists custom_list end',
      process_custom_values (custom_values a) (end_ a)
      = CustomDone custom_list end'
      /\ effective_list custom_list (value_list a) = Some l.

(** The next call with [a] starts from the index [i] (before the clamp to
    the list) and the direction [d]: the state holds them under the
    snapshot [a], or the state is fresh and they are [start] and +1. *)
Definition ready (hash_str : list pyval -> Z) (a : Args) (st : State)
  (i d : Z) : Prop :=
  (current_index st = Some i /\ direction st = d
   /\ snapshot_is hash_str a st)
  \/ (current_index st = None /\ i = start a /\ d = 1).

(** Number of stops of a cycle over the range: [start], [start + step],
    ... up to the last one that is not above [end]. *)
Definition range_stops (a : Args) : Z :=
  (end_ a - start a) / step a + 1.

(** The index a list of length [n] is read at by the call after [k] calls
    in cycle mode: [start], clamped to the list, moved on [k] steps around
    the list. *)
Definition list_cycle_index (a : Args) (n : Z) (k : Z) : Z :=
  (Z.min (start a) (n - 1) + k * step a) mod n.

(** The index held by the call after [k] calls in once mode under the
    upper bound [U]: [start], clamped, moved on [k] steps and stopped at
    [U]. *)
Definition once_index (a : Args) (U : Z) (k : Z) : Z :=
  Z.min (Z.min (start a) U + k * step a) U.

(** The triangle wave over [0 .. m]: up from 0 to [m], then down again,
    with period [2 * m]. *)
Definition triangle (m k : Z) : Z :=
  let r := k mod (2 * m) in
  if r <=? m then r else 2 * m - r.

(** The direction stored after [k] >= 1 calls of a bounce over [m] steps:
    +1 on the way up, -1 on the way down and at the bottom. *)
Definition bounce_direction (m k : Z) : Z :=
  let r := k mod (2 * m) in
  if (1 <=? r) && (r <=? m) then 1 else -1.

(** The index a bounce over [L .. L + m * step] holds after [k] calls. *)
Definition bounce_index (a : Args) (L m k : Z) : Z :=
  L + step a * triangle m k.

(** The index a bounce over the numeric range holds after [k] calls when
    the step exceeds the width of the range by [delta]: on the even calls
    [k * delta] above [start], on the odd ones [k * delta] below [end]. *)
Definition overshoot_index (a : Args) (k : Z) : Z :=
  let delta := step a - (end_ a - start a) in
  if Z.even k then start a + k * delta else end_ a - k * delta.

(** Number of commas in a text. *)
Fixpoint count_commas (s : string) : nat :=
  match s with
  | EmptyString => O
  | String c r =>
      if Ascii.eqb c ","%char then S (count_commas r) else count_commas r
  end.

(** An element of a parsed custom list is an int, or a float that is
    finite and has a fractional part. *)
Definition normalised (v : pyval) : Prop :=
  match v with
  | PInt _ => True
  | PFloat f =>
      exists z, PyFloat.int f = PyFloat.IntOk z /\ PyFloat.eq_int f z = false
  end.

(** A list of five values, and the range 0..1 cycled over it. *)
Definition five_values : list pyval :=
  [PInt 10; PInt 11; PInt 12; PInt 13; PInt 14].

Definition cycle_five_values : Args :=
  mkArgs 0 1 1 false "" "cycle" (Some five_values).

(** start=5, end=1, step=3, bounce: within the declared ranges, with
    start above end. *)
Definition bounce_5_1_by_3 : Args := mkArgs 5 1 3 false "" "bounce" None.

(** A mode the node has no branch for. *)
Definition zigzag_0_10 : Args := mkArgs 0 10 1 false "" "zigzag" None.

(** A custom text whose only element is too large for a float. *)
Definition cycle_1e400 : Args := mkArgs 0 10 1 false "1e400" "cycle" None.

(** The range 0..10 cycled with [reset_counter] set. *)
Definition cycle_0_10_reset : Args := mkArgs 0 10 1 true "" "cycle" None.

(** start=2, end=10, step=3, cycle: the stops are 2, 5 and 8. *)
Definition cycle_2_10_by_3 : Args := mkArgs 2 10 3 false "" "cycle" None.

(** The custom list "1,2,3" cycled with step 2. *)
Definition cycle_123_by_2 : Args := mkArgs 0 10 2 false "1,2,3" "cycle" None.

(** start=0, end=4, step=2, bounce: the width is two steps. *)
Definition bounce_0_4_by_2 : Args := mkArgs 0 4 2 false "" "bounce" None.

(** start=5, end=1, step=1, cycle and once: start above end. *)
Definition cycle_5_1 : Args := mkArgs 5 1 1 false "" "cycle" None.

Definition once_5_1 : Args := mkArgs 5 1 1 false "" "once" None.

(** The custom list "1,2,3" written with blanks around its elements. *)
Definition cycle_custom_123_spaced : Args :=
  mkArgs 0 10 1 false " 1 ,  2,3 " "cycle" (Some [PInt 7]).

(** *** Vocabulary of instances

    The snapshot apart from the custom text. *)
Definition snapshot_but_text (st : State)
  : option Z * option Z * option Z * option string * option Z :=
  (prev_start st, prev_end st, prev_step st, prev_mode st,
   prev_value_list_hash st).

(** Two instances run side by side, [st] called with the custom text [cv]
    and [st'] with the empty text in its place: they hold the same cursor
    and the same snapshot apart from the text, and each holds its own text,
    unless no call was made yet. *)
Definition side_by_side (cv : string) (st st' : State) : Prop :=
  cursor_of st' = cursor_of st
  /\ snapshot_but_text st' = snapshot_but_text st
  /\ prev_custom_values st' = ""%string
  /\ (prev_custom_values st = cv \/ prev_start st = None).

(** A state that some sequence of calls on a fresh instance leaves. *)
Definition reachable (hash_str : list pyval -> Z) (st : State) : Prop :=
  exists calls, st = fst (run hash_str init_state calls).

(** What the calls maintain about the direction: it is +1, or it is -1
    and the last call was a bounce, or the last call left with the
    [OverflowError] of its custom text (before any reset). *)
Definition direction_settled (st : State) : Prop :=
  direction st = 1
  \/ (direction st = -1 /\ prev_mode st = Some "bounce"%string)
  \/ parse_custom_values (prev_custom_values st) = ParseOverflowError.

(** States from which a run with [a] starts within the bounds [L .. U]:
    the first call resets, or the state is fresh, or the stored index lies
    within the bounds and the state is a reachable one or holds a direction
    that fits the mode. *)
Definition starts_within (hash_str : list pyval -> Z) (a : Args) (L U : Z)
  (st : State) : Prop :=
  fst (detect_changes hash_str st a) = true
  \/ current_index st = None
  \/ ((direction_ok a st \/ reachable hash_str st)
      /\ exists i, current_index st = Some i /\ L <= i <= U).

(** start=5, end=1, step=1, bounce: start above end. *)
Definition bounce_5_1_by_1 : Args := mkArgs 5 1 1 false "" "bounce" None.

(** A state no run leaves: the snapshot of the cycle over 0..10 with the
    index 0 and the direction -1. *)
Definition backward_cycle_state : State :=
  mkState (Some 0) (-1) false "" (Some 0) (Some 10) (Some 1)
          (Some "cycle"%string) None.

(** ** Basic facts *)

Ltac break_if :=
  match goal with
  | |- context [if ?c then _ else _] => destruct c eqn:?
  end.

Ltac break_match_in H :=
  match type of H with
  | context [match ?c with _ => _ end] => destruct c eqn:?
  end.

Ltac break_if_in H :=
  match type of H with
  | context [if ?c then _ else _] => destruct c eqn:?
  end.

Ltac break_match :=
  match goal with
  | |- context [match ?c with _ => _ end] => destruct c eqn:?
  end.

Lemma differs_Z_false (x : Z) (p : option Z) :
  differs_Z x p = false <-> p = Some x.
Proof.
  unfold differs_Z. destruct p as [q|]; split; intro H; try discriminate.
  - apply negb_false_iff, Z.eqb_eq in H. now subst.
  - injection H as ->. now rewrite Z.eqb_refl.
Qed.

Lemma differs_string_false (x : string) (p : option string) :
  differs_string x p = false <-> p = Some x.
Proof.
  unfold differs_string. destruct p as [q|]; split; intro H; try discriminate.
  - apply negb_false_iff, String.eqb_eq in H. now subst.
  - injection H as ->. now rewrite String.eqb_refl.
Qed.

Lemma differs_Z_true (x : Z) (p : option Z) :
  differs_Z x p = true <-> p <> Some x.
Proof.
  destruct (differs_Z x p) eqn:E.
  - split; [intros _ H | reflexivity].
    apply differs_Z_false in H. congruence.
  - apply differs_Z_false in E. split; [discriminate | congruence].
Qed.

Lemma differs_string_true (x : string) (p : option string) :
  differs_string x p = true <-> p <> Some x.
Proof.
  destruct (differs_string x p) eqn:E.
  - split; [intros _ H | reflexivity].
    apply differs_string_false in H. congruence.
  - apply differs_string_false in E. split; [discriminate | congruence].
Qed.

(** *** Lists and the parse of the custom text *)

Lemma split_not_nil (sep : ascii) (s : string) : PyStr.split sep s <> [].
Proof.
  destruct s as [|c r]; simpl; [discriminate|].
  destruct (Ascii.eqb c sep); [discriminate|].
  destruct (PyStr.split sep r); discriminate.
Qed.

Lemma floats_of_length (xs : list string) (fs : list spec_float) :
  floats_of xs = Some fs -> List.length fs = List.length xs.
Proof.
  revert fs. induction xs as [|x r IH]; simpl; intros fs H.
  - now injection H as <-.
  - destruct (PyFloat.float (PyStr.strip x)); [|discriminate].
    destruct (floats_of r) as [fs'|]; [|discriminate].
    injection H as <-. simpl. f_equal. now apply IH.
Qed.

Lemma floats_of_non_numeric (xs : list string) (x : string) :
  In x xs -> non_numeric x -> floats_of xs = None.
Proof.
  unfold non_numeric. induction xs as [|y r IH]; simpl; intros Hin Hx.
  - contradiction.
  - destruct Hin as [-> | Hin].
    + now rewrite Hx.
    + destruct (PyFloat.float (PyStr.strip y)); [|reflexivity].
      now rewrite (IH Hin Hx).
Qed.

Lemma integral_to_int_length (fs : list spec_float) (l : list pyval) :
  integral_to_int fs = Parsed l -> List.length l = List.length fs.
Proof.
  revert l. induction fs as [|x r IH]; simpl; intros l H.
  - now injection H as <-.
  - destruct (PyFloat.int x); try discriminate.
    destruct (integral_to_int r) as [l'| |]; try discriminate.
    injection H as <-. simpl. f_equal. now apply IH.
Qed.


Lemma parse_custom_values_malformed (cv : string) :
  malformed cv -> parse_custom_values cv = ParseValueError.
Proof.
  intros [x [Hin Hx]]. unfold parse_custom_values.
  now rewrite (floats_of_non_numeric _ _ Hin Hx).
Qed.

Lemma process_custom_values_malformed (cv : string) (e : Z) :
  malformed cv -> process_custom_values cv e = CustomDone None e.
Proof.
  intros H. unfold process_custom_values.
  rewrite (parse_custom_values_malformed _ H). now break_if.
Qed.


(** *** Blank custom text *)

Lemma truthy_false (s : string) : PyStr.truthy s = false <-> s = EmptyString.
Proof. destruct s; simpl; split; congruence. Qed.

Lemma rstrip_by_cons (sp : ascii -> bool) (c : ascii) (r : string) :
  sp c = false -> PyStr.rstrip_by sp (String c r) <> EmptyString.
Proof.
  intros H. simpl. destruct (PyStr.rstrip_by sp r); [now rewrite H|discriminate].
Qed.

Lemma strip_by_empty_split (sp : ascii -> bool) (sep : ascii) (s : string) :
  sp sep = false ->
  PyStr.strip_by sp s = EmptyString ->
  PyStr.split sep s = [s].
Proof.
  intros Hsep. unfold PyStr.strip_by.
  induction s as [|c r IH]; [reflexivity|].
  simpl PyStr.lstrip_by. destruct (sp c) eqn:Hc.
  - intros H. simpl. rewrite (IH H).
    destruct (Ascii.eqb c sep) eqn:E; [|reflexivity].
    apply Ascii.eqb_eq in E. congruence.
  - intros H. now apply rstrip_by_cons in H.
Qed.

Lemma parse_custom_values_blank (cv : string) :
  PyStr.strip cv = EmptyString -> parse_custom_values cv = ParseValueError.
Proof.
  intros H. unfold parse_custom_values.
  rewrite (strip_by_empty_split PyStr.is_space "," cv eq_refl H).
  simpl. now rewrite H.
Qed.

(** The custom text gives no list: it is blank, or its parse raised
    [ValueError]. *)
Lemma process_custom_values_no_list (cv : string) (e : Z) :
  PyStr.strip cv = EmptyString \/ parse_custom_values cv = ParseValueError ->
  process_custom_values cv e = CustomDone None e.
Proof.
  intros H. unfold process_custom_values.
  assert (P : parse_custom_values cv = ParseValueError).
  { destruct H as [H|H]; [now apply parse_custom_values_blank|exact H]. }
  rewrite P. now break_if.
Qed.

Lemma process_custom_values_parsed (cv : string) (e : Z) (l : list pyval) :
  parse_custom_values cv = Parsed l ->
  process_custom_values cv e = CustomDone (Some l) (PyList.len l - 1).
Proof.
  intros P. unfold process_custom_values. rewrite P.
  destruct (PyStr.truthy cv && PyStr.truthy (PyStr.strip cv)) eqn:T;
    [reflexivity|].
  apply andb_false_iff in T.
  assert (B : PyStr.strip cv = EmptyString).
  { destruct T as [T|T]; apply truthy_false in T; [now subst|exact T]. }
  apply parse_custom_values_blank in B. congruence.
Qed.

(** *** The stepping reads only the cursor part of the state *)

Lemma cursor_of_eq (s t : State) :
  cursor_of s = cursor_of t ->
  current_index s = current_index t /\ direction s = direction t
  /\ cycle_completed s = cycle_completed t.
Proof. unfold cursor_of. intros [= -> -> ->]. auto. Qed.

Lemma next_step_cursor (s t : State) (m : string) (ul : bool)
  (l : list pyval) (le s0 e sp i : Z) :
  cursor_of s = cursor_of t ->
  match next_step s m ul l le s0 e sp i, next_step t m ul l le s0 e sp i with
  | Some (j, s'), Some (j', t') => j = j' /\ cursor_of s' = cursor_of t'
  | None, None => True
  | _, _ => False
  end.
Proof.
  destruct s, t. unfold cursor_of. simpl. intros [= -> -> ->].
  unfold next_step. simpl. repeat break_if; simpl; auto.
Qed.

Lemma advance_cursor (s t : State) (a : Args) (f : Frame.t) :
  cursor_of s = cursor_of t ->
  snd (advance s a f) = snd (advance t a f)
  /\ cursor_of (fst (advance s a f)) = cursor_of (fst (advance t a f)).
Proof.
  intros H. unfold advance.
  destruct (value_at (Frame.using_list f) (Frame.value_list f)
                     (Frame.current_index f)); [|now simpl].
  pose proof (next_step_cursor s t (mode a) (Frame.using_list f)
                (Frame.value_list f) (Frame.list_end f) (start a)
                (Frame.end_ f) (step a) (Frame.current_index f) H) as N.
  destruct (next_step s _ _ _ _ _ _ _ _) as [[j s']|],
           (next_step t _ _ _ _ _ _ _ _) as [[j' t']|];
    try contradiction; [|now simpl].
  destruct N as [<- N]. apply cursor_of_eq in N. destruct N as (_ & Nd & Nc).
  destruct s', t'. simpl in Nd, Nc. subst. unfold cursor_of. simpl.
  destruct (value_at (Frame.using_list f) (Frame.value_list f) j);
    simpl; auto.
Qed.

Lemma init_or_reset_cursor (b : bool) (x : Z) (s t : State) :
  cursor_of s = cursor_of t ->
  fst (init_or_reset b x s) = fst (init_or_reset b x t)
  /\ cursor_of (snd (init_or_reset b x s))
     = cursor_of (snd (init_or_reset b x t)).
Proof.
  destruct s, t. unfold cursor_of. simpl. intros [= -> -> ->].
  unfold init_or_reset. simpl. destruct current_index1, b; simpl; auto.
Qed.

Lemma init_or_reset_fresh (b : bool) (x : Z) (s : State) :
  b = true \/ current_index s = None ->
  init_or_reset b x s =
  (x, set_cycle_completed false
        (set_direction 1 (set_current_index (Some x) s))).
Proof.
  unfold init_or_reset. intros [-> | H].
  - now destruct (current_index s).
  - now rewrite H.
Qed.

Lemma finish_after_init (b : bool) (s : State) (a : Args) :
  finish b s a =
  match process_custom_values (custom_values a) (end_ a) with
  | CustomRaised e => (s, Raised e)
  | CustomDone custom_list end' =>
      let vl := effective_list custom_list (value_list a) in
      let i := clamp_to_list (using_list_of vl) (PyList.len (list_of vl) - 1)
                             (fst (init_or_reset b (start a) s)) in
      advance (set_current_index (Some i) (snd (init_or_reset b (start a) s)))
              a
              (Frame.mk (using_list_of vl) (list_of vl)
                        (PyList.len (list_of vl) - 1) end' i)
  end.
Proof.
  unfold finish, resolve_and_init.
  destruct (process_custom_values (custom_values a) (end_ a)); [|reflexivity].
  destruct (init_or_reset b (start a) s). reflexivity.
Qed.

Lemma set_current_index_cursor (v : option Z) (s t : State) :
  cursor_of s = cursor_of t ->
  cursor_of (set_current_index v s) = cursor_of (set_current_index v t).
Proof.
  intros H. apply cursor_of_eq in H. destruct H as (_ & Hd & Hc).
  unfold cursor_of. simpl. congruence.
Qed.

Lemma finish_cursor (b : bool) (s t : State) (a : Args) :
  cursor_of s = cursor_of t ->
  snd (finish b s a) = snd (finish b t a).
Proof.
  intros H. rewrite !finish_after_init.
  destruct (process_custom_values (custom_values a) (end_ a)); [|reflexivity].
  cbv zeta.
  destruct (init_or_reset_cursor b (start a) s t H) as [-> Hc].
  apply advance_cursor. now apply set_current_index_cursor.
Qed.

Lemma finish_cursor_state (b : bool) (s t : State) (a : Args) :
  cursor_of s = cursor_of t ->
  cursor_of (fst (finish b s a)) = cursor_of (fst (finish b t a)).
Proof.
  intros H. rewrite !finish_after_init.
  destruct (process_custom_values (custom_values a) (end_ a)); [|exact H].
  cbv zeta.
  destruct (init_or_reset_cursor b (start a) s t H) as [-> Hc].
  apply advance_cursor. now apply set_current_index_cursor.
Qed.

Lemma finish_reset (b b' : bool) (s t : State) (a : Args) :
  b = true \/ current_index s = None ->
  b' = true \/ current_index t = None ->
  snd (finish b s a) = snd (finish b' t a).
Proof.
  intros Hs Ht. rewrite !finish_after_init.
  destruct (process_custom_values (custom_values a) (end_ a)); [|reflexivity].
  cbv zeta.
  rewrite (init_or_reset_fresh b _ s Hs), (init_or_reset_fresh b' _ t Ht).
  simpl fst. simpl snd. apply advance_cursor. reflexivity.
Qed.

(** *** The stepping leaves the snapshot alone *)

Lemma next_step_snapshot (s s' : State) (m : string) (ul : bool)
  (l : list pyval) (le s0 e sp i j : Z) :
  next_step s m ul l le s0 e sp i = Some (j, s') ->
  snapshot_of s' = snapshot_of s.
Proof.
  destruct s. unfold next_step. intros H.
  repeat break_if_in H; try discriminate; injection H as _ <-; reflexivity.
Qed.

Lemma advance_snapshot (s : State) (a : Args) (f : Frame.t) :
  snapshot_of (fst (advance s a f)) = snapshot_of s.
Proof.
  unfold advance.
  destruct (value_at _ _ (Frame.current_index f)); [|reflexivity].
  destruct (next_step s _ _ _ _ _ _ _ _) as [[j s']|] eqn:N; [|reflexivity].
  apply next_step_snapshot in N.
  destruct (value_at _ _ j); simpl; rewrite <- N; destruct s'; reflexivity.
Qed.

Lemma init_or_reset_snapshot (b : bool) (x : Z) (s : State) :
  snapshot_of (snd (init_or_reset b x s)) = snapshot_of s.
Proof.
  unfold init_or_reset. destruct s. simpl.
  destruct current_index0, b; reflexivity.
Qed.

Lemma finish_snapshot (b : bool) (s : State) (a : Args) :
  snapshot_of (fst (finish b s a)) = snapshot_of s.
Proof.
  rewrite finish_after_init.
  destruct (process_custom_values (custom_values a) (end_ a)); [|reflexivity].
  cbv zeta. rewrite advance_snapshot.
  rewrite <- (init_or_reset_snapshot b (start a) s).
  destruct (snd (init_or_reset b (start a) s)). reflexivity.
Qed.

Lemma snapshot_of_but_text (s t : State) :
  snapshot_of s = snapshot_of t ->
  snapshot_but_text s = snapshot_but_text t
  /\ prev_custom_values s = prev_custom_values t.
Proof.
  unfold snapshot_of, snapshot_but_text. intros [= -> -> -> -> -> ->]. auto.
Qed.

(** *** Calls that differ in an argument the source resolution drops *)

Lemma process_custom_values_None_end (cv : string) (e e' : Z) :
  process_custom_values cv e = CustomDone None e' -> e' = e.
Proof.
  unfold process_custom_values. intros H.
  break_if_in H; [break_match_in H|]; congruence.
Qed.

Lemma finish_with_custom_values (b : bool) (s : State) (a : Args) :
  process_custom_values (custom_values a) (end_ a) = CustomDone None (end_ a) ->
  finish b s (with_custom_values "" a) = finish b s a.
Proof.
  intros H. rewrite !finish_after_init. rewrite H. reflexivity.
Qed.

Lemma finish_empty_list (b : bool) (s : State) (a : Args) :
  process_custom_values (custom_values a) (end_ a) = CustomDone None (end_ a) ->
  value_list a = Some [] ->
  finish b s (with_value_list None a) = finish b s a.
Proof.
  intros H E. rewrite !finish_after_init.
  change (custom_values (with_value_list None a)) with (custom_values a).
  change (end_ (with_value_list None a)) with (end_ a).
  rewrite H. change (value_list (with_value_list None a)) with (@None (list pyval)).
  rewrite E. reflexivity.
Qed.

(** *** What [advance] commits *)

Lemma advance_commit (st st' : State) (a : Args) (f : Frame.t)
  (cur : pyval) (j : Z) :
  value_at (Frame.using_list f) (Frame.value_list f) (Frame.current_index f)
  = Some cur ->
  next_step st (mode a) (Frame.using_list f) (Frame.value_list f)
            (Frame.list_end f) (start a) (Frame.end_ f) (step a)
            (Frame.current_index f) = Some (j, st') ->
  fst (advance st a f) = set_current_index (Some j) st'
  /\ snd (advance st a f)
     = match value_at (Frame.using_list f) (Frame.value_list f) j with
       | Some nxt => Returned cur nxt (cycle_completed st')
       | None => Raised IndexError
       end.
Proof.
  intros Hv Hn. unfold advance. rewrite Hv, Hn.
  destruct (value_at (Frame.using_list f) (Frame.value_list f) j);
    split; reflexivity.
Qed.

Lemma next_step_bounce (st : State) (ul : bool) (l : list pyval)
  (le s0 e sp i : Z) :
  let U := if ul then le else e in
  let L := if ul then 0 else s0 in
  let candidate := i + sp * direction st in
  next_step st "bounce" ul l le s0 e sp i =
  Some (if U <? candidate
        then (U - (candidate - U),
              set_cycle_completed false (set_direction (-1) st))
        else if candidate <? L
        then (L + (L - candidate),
              set_cycle_completed true (set_direction 1 st))
        else (candidate, set_cycle_completed false st)).
Proof.
  unfold next_step.
  change (("bounce" =? "cycle")%string) with false.
  change (("bounce" =? "bounce")%string) with true. cbv iota.
  destruct ul; cbv zeta; repeat break_if; reflexivity.
Qed.

(** *** Modes and overflow *)

Lemma next_step_unknown_mode (st : State) (m : string) (ul : bool)
  (l : list pyval) (le s0 e sp i : Z) :
  ~ known_mode m -> next_step st m ul l le s0 e sp i = None.
Proof.
  unfold known_mode, next_step. intros H.
  destruct (String.eqb_spec m "cycle"); [tauto|].
  destruct (String.eqb_spec m "bounce"); [tauto|].
  destruct (String.eqb_spec m "once"); [tauto|reflexivity].
Qed.

Lemma next_step_known_mode (st : State) (m : string) (ul : bool)
  (l : list pyval) (le s0 e sp i : Z) :
  known_mode m -> exists j s', next_step st m ul l le s0 e sp i = Some (j, s').
Proof.
  unfold next_step. intros [-> | [-> | ->]].
  - change (("cycle" =? "cycle")%string) with true. cbv iota.
    repeat break_if; eauto.
  - change (("bounce" =? "cycle")%string) with false.
    change (("bounce" =? "bounce")%string) with true. cbv iota.
    repeat break_if; eauto.
  - change (("once" =? "cycle")%string) with false.
    change (("once" =? "bounce")%string) with false.
    change (("once" =? "once")%string) with true. cbv iota.
    repeat break_if; eauto.
Qed.

Lemma process_custom_values_overflow (cv : string) (e : Z) :
  parse_custom_values cv = ParseOverflowError ->
  process_custom_values cv e = CustomRaised OverflowError.
Proof.
  intros P. unfold process_custom_values. rewrite P.
  destruct (PyStr.truthy cv && PyStr.truthy (PyStr.strip cv)) eqn:T;
    [reflexivity|].
  apply andb_false_iff in T.
  assert (B : PyStr.strip cv = EmptyString).
  { destruct T as [T|T]; apply truthy_false in T; [now subst|exact T]. }
  apply parse_custom_values_blank in B. congruence.
Qed.

(** *** The shape of the custom text *)

Lemma split_app (sep : ascii) (s t : string) :
  PyStr.split sep (s ++ String sep t) = PyStr.split sep s ++ PyStr.split sep t.
Proof.
  induction s as [|c r IH]; simpl.
  - now rewrite Ascii.eqb_refl.
  - destruct (Ascii.eqb c sep); [now rewrite IH|].
    rewrite IH. destruct (PyStr.split sep r) as [|h u] eqn:E;
      [now apply split_not_nil in E|reflexivity].
Qed.

Lemma split_length (s : string) :
  List.length (PyStr.split "," s) = S (count_commas s).
Proof.
  induction s as [|c r IH]; simpl; [reflexivity|].
  destruct (Ascii.eqb c ","); simpl; [now rewrite IH|].
  destruct (PyStr.split "," r) as [|h u] eqn:E;
    [now apply split_not_nil in E|]. simpl in *. exact IH.
Qed.

Lemma blank_is_non_numeric (x : string) :
  PyStr.strip x = EmptyString -> non_numeric x.
Proof. unfold non_numeric. now intros ->. Qed.

Lemma integral_to_int_normalised (fs : list spec_float) (l : list pyval) :
  integral_to_int fs = Parsed l -> Forall normalised l.
Proof.
  revert l. induction fs as [|x r IH]; simpl; intros l H.
  - injection H as <-. constructor.
  - destruct (PyFloat.int x) as [z| |] eqn:I; try discriminate.
    destruct (integral_to_int r) as [l'| |]; try discriminate.
    injection H as <-. constructor; [|now apply IH].
    destruct (PyFloat.eq_int x z) eqn:Q; simpl; eauto.
Qed.

(** X8. An element of the custom text that is empty or blank makes the
    whole text fall back ([custom_list] is [None], [end] is kept): so does
    a comma at the end of the text, a comma at its start, and two commas
    in a row, whatever the other elements are. *)
Theorem blank_element_falls_back (e : Z) :
  (forall cv x,
      In x (PyStr.split "," cv) -> PyStr.strip x = EmptyString ->
      process_custom_values cv e = CustomDone None e)
  /\ (forall s, process_custom_values (s ++ ",") e = CustomDone None e)
  /\ (forall t, process_custom_values ("," ++ t) e = CustomDone None e)
  /\ (forall s t, process_custom_values (s ++ ",," ++ t) e = CustomDone None e).
Proof.
  assert (G : forall cv x,
             In x (PyStr.split "," cv) -> PyStr.strip x = EmptyString ->
             process_custom_values cv e = CustomDone None e).
  { intros cv x Hin Hx. apply process_custom_values_malformed.
    exists x. split; [exact Hin|now apply blank_is_non_numeric]. }
  split; [exact G|]. split; [|split].
  - intros s. apply (G _ EmptyString); [|reflexivity].
    change (s ++ ",")%string with (s ++ String "," EmptyString)%string.
    rewrite split_app. apply in_or_app. right. now left.
  - intros t. apply (G _ EmptyString); [|reflexivity]. simpl. now left.
  - intros s t. apply (G _ EmptyString); [|reflexivity].
    change (s ++ ",," ++ t)%string
      with (s ++ String "," (String "," t))%string.
    rewrite split_app. apply in_or_app. right. simpl. now left.
Qed.

(** X9. A custom text that parses gives one value per element, that is
    one more than it has commas, and each value is an int or a finite
    float with a fractional part: a float without fractional part has
    become an int, and no infinity or NaN is ever in the list. *)
Theorem parsed_custom_values_shape (cv : string) (l : list pyval) :
  parse_custom_values cv = Parsed l ->
  List.length l = S (count_commas cv)
  /\ Forall normalised l.
Proof.
  unfold parse_custom_values. intros H.
  destruct (floats_of (PyStr.split "," cv)) as [fs|] eqn:F; [|discriminate].
  split.
  - rewrite (integral_to_int_length _ _ H), (floats_of_length _ _ F).
    apply split_length.
  - now apply integral_to_int_normalised in H.
Qed.

(** *** [IS_CHANGED], [ContainsAnyDict] and [INPUT_TYPES] *)

(** X10. [IS_CHANGED] never raises, and the value it returns is never
    equal to the value of another call, nor to itself: the host therefore
    sees the node as changed on every run. *)
Theorem IS_CHANGED_never_equal (args1 args2 : list pyval) :
  exists x y,
    IS_CHANGED args1 = Some x /\ IS_CHANGED args2 = Some y
    /\ float_eq x y = false /\ float_eq x x = false.
Proof. exists S754_nan, S754_nan. repeat split. Qed.

(** X11. An empty [ContainsAnyDict] claims to contain every key, but
    unpacking it into the "optional" section of [INPUT_TYPES] adds no
    item: that section is an ordinary dict whose only key is
    "value_list". *)
Theorem optional_inputs_hold_only_value_list (key : string) :
  ContainsAnyDict.contains (@ContainsAnyDict.new input_decl) key = true
  /\ (PyDict.contains (optional INPUT_TYPES) key = true
      <-> key = "value_list"%string)
  /\ PyDict.get (optional INPUT_TYPES) "value_list"
     = Some (mkDecl (Kind "LIST") None).
Proof.
  split; [reflexivity|]. split; [|reflexivity].
  change (optional INPUT_TYPES)
    with [("value_list"%string, mkDecl (Kind "LIST") None)].
  unfold PyDict.contains, PyDict.get.
  destruct (String.eqb_spec "value_list" key) as [E|E].
  - split; [now intros _|reflexivity].
  - split; [discriminate|congruence].
Qed.

Lemma uses_range_bounds (a : Args) :
  uses_range a -> bounds a = Some (start a, end_ a).
Proof.
  intros [P U]. unfold bounds. rewrite P. cbn [effective_list]. now rewrite U.
Qed.

(** X12. Arguments within the declarations of [INPUT_TYPES] have a mode
    the node has a branch for, a start that is not negative and a step of
    at least 1.  The declarations do not relate start to end, nor the step
    to the width of the range: with no list in use, once start <= end and,
    in bounce mode, step <= end - start, the arguments are well formed. *)
Theorem admitted_arguments (a : Args) :
  admitted a = true ->
  known_mode (mode a)
  /\ 0 <= start a <= 100
  /\ 1 <= end_ a <= 100
  /\ 1 <= step a <= 10
  /\ (uses_range a ->
      start a <= end_ a ->
      (mode a = "bounce"%string -> step a <= end_ a - start a) ->
      well_formed a (start a) (end_ a)).
Proof.
  unfold admitted. rewrite !andb_true_iff. intros [[[Hs He] Hp] Hm].
  unfold int_admitted in Hs, He, Hp. cbn in Hs, He, Hp.
  apply andb_true_iff in Hs, He, Hp.
  rewrite !Z.leb_le in Hs, He, Hp.
  assert (K : known_mode (mode a)).
  { change (choice_admitted "mode" (mode a))
      with (existsb (String.eqb (mode a)) ["cycle"; "bounce"; "once"]%string)
      in Hm.
    cbn [existsb] in Hm. unfold known_mode.
    rewrite !orb_true_iff, !String.eqb_eq in Hm. intuition discriminate. }
  repeat split; try lia; try exact K.
  - now apply uses_range_bounds.
  - destruct K as [K | [K | K]]; auto.
Qed.

(** *** White space around the elements *)

Lemma floats_of_strip (xs ys : list string) :
  map PyStr.strip xs = map PyStr.strip ys -> floats_of xs = floats_of ys.
Proof.
  revert ys. induction xs as [|x r IH]; intros [|y u] H;
    try discriminate; [reflexivity|].
  simpl in H. injection H as Hx Hr. simpl. now rewrite Hx, (IH u Hr).
Qed.

Lemma process_by_parse (cv : string) (e : Z) :
  process_custom_values cv e =
  match parse_custom_values cv with
  | Parsed l => CustomDone (Some l) (PyList.len l - 1)
  | ParseValueError => CustomDone None e
  | ParseOverflowError => CustomRaised OverflowError
  end.
Proof.
  destruct (parse_custom_values cv) as [l| |] eqn:P.
  - now apply process_custom_values_parsed.
  - apply process_custom_values_no_list. now right.
  - now apply process_custom_values_overflow.
Qed.

Lemma index_below_list {A : Type} (l : list A) (i : Z) :
  i < - PyList.len l -> PyList.index l i = None.
Proof.
  unfold PyList.index, PyList.len. intros H.
  destruct (Z.leb_spec 0 i); [lia|]. cbn [andb].
  destruct (Z.leb_spec (- Z.of_nat (List.length l)) i); [lia|reflexivity].
Qed.

Section Properties.

Variable hash_str : list pyval -> Z.

Lemma range_iterator_finish (st : State) (a : Args) :
  range_iterator hash_str st a =
  finish (fst (detect_changes hash_str st a))
         (snd (detect_changes hash_str st a)) a.
Proof.
  unfold range_iterator, prepare, finish.
  destruct (detect_changes hash_str st a) as [b st1]. simpl.
  destruct (resolve_and_init b st1 a) as [st2 [f|e]]; reflexivity.
Qed.

Lemma detect_changes_cursor (st : State) (a : Args) :
  cursor_of (snd (detect_changes hash_str st a)) = cursor_of st.
Proof.
  destruct st. unfold detect_changes, cursor_of. simpl.
  repeat (break_if; simpl); destruct (value_list a); simpl;
    repeat (break_if; simpl); reflexivity.
Qed.

Lemma detect_changes_snapshot (st : State) (a : Args) :
  snapshot_is hash_str a (snd (detect_changes hash_str st a)).
Proof.
  destruct st. unfold detect_changes, snapshot_is. simpl.
  repeat (break_if; simpl); destruct (value_list a); simpl;
    repeat (break_if; simpl);
    repeat match goal with
      | H : negb (String.eqb _ _) = false |- _ =>
          apply negb_false_iff, String.eqb_eq in H
      | H : differs_Z _ _ = false |- _ => apply differs_Z_false in H
      | H : differs_string _ _ = false |- _ =>
          apply differs_string_false in H
      end;
    subst; repeat split; try congruence; try discriminate;
    intros ? [= <-]; congruence.
Qed.

Lemma detect_changes_stable (st : State) (a : Args) :
  snapshot_is hash_str a st ->
  detect_changes hash_str st a = (reset_counter a, st).
Proof.
  intros (Hc & Hs & He & Hp & Hm & Hh). unfold detect_changes.
  rewrite Hc, String.eqb_refl. simpl.
  rewrite (proj2 (differs_Z_false _ _) Hs).
  rewrite (proj2 (differs_Z_false _ _) He).
  rewrite (proj2 (differs_Z_false _ _) Hp).
  rewrite (proj2 (differs_string_false _ _) Hm).
  destruct (value_list a) as [l|]; [|reflexivity].
  now rewrite (proj2 (differs_Z_false _ _) (Hh l eq_refl)).
Qed.

(** The reset flag is the disjunction of the individual triggers. *)
Lemma detect_changes_flag (st : State) (a : Args) :
  fst (detect_changes hash_str st a) =
  reset_counter a
  || negb (String.eqb (custom_values a) (prev_custom_values st))
  || differs_Z (start a) (prev_start st)
  || differs_Z (end_ a) (prev_end st)
  || differs_Z (step a) (prev_step st)
  || differs_string (mode a) (prev_mode st)
  || match value_list a with
     | Some l => differs_Z (hash_str l) (prev_value_list_hash st)
     | None => false
     end.
Proof.
  destruct st. unfold detect_changes. simpl.
  repeat (break_if; simpl); destruct (value_list a); simpl;
    repeat (break_if; simpl);
    destruct (reset_counter a); reflexivity.
Qed.


(** *** Concrete runs *)

(** C5. With start=0, end=10, step=1, mode cycle, no custom values and no
    value list, eleven calls on a fresh instance leave the stored index at
    0, the twelfth call returns 0 as its current value, and the completion
    flag was true on exactly one of the eleven calls: the eleventh, which
    wraps from 10 to 0. *)
Theorem cycle_0_10_wraps_on_eleventh_call :
  let r := run hash_str init_state (repeat cycle_0_10 11) in
  current_index (fst r) = Some 0
  /\ map completed_flag (snd r) = repeat (Some false) 10 ++ [Some true]
  /\ nth_error (snd r) 10 = Some (Returned (PInt 10) (PInt 0) true)
  /\ snd (range_iterator hash_str (fst r) cycle_0_10)
     = Returned (PInt 0) (PInt 1) false.
Proof. vm_compute. repeat split. Qed.

(** C1. The call does not always return: on a fresh instance, bouncing
    over the custom list "1,2" with step 5 reflects the candidate 5 to
    1 - (5 - 1) = -3, commits it, and reading [value_list[-3]] of a list
    of length 2 raises [IndexError]. *)
Theorem bounce_pair_by_5_raises_IndexError :
  range_iterator hash_str init_state bounce_pair_by_5
  = (mkState (Some (-3)) (-1) false "1,2" (Some 0) (Some 10) (Some 5)
             (Some "bounce"%string) None,
     Raised IndexError)
  /\ parse_custom_values "1,2" = Parsed [PInt 1; PInt 2]
  /\ PyList.index [PInt 1; PInt 2] (-3) = None.
Proof. vm_compute. repeat split. Qed.

(** An infinity in the custom text leaves the call with [OverflowError]:
    [int(x)] raises it and the handler catches [ValueError] only. *)
Lemma infinity_raises_OverflowError :
  snd (range_iterator hash_str init_state
         (mkArgs 0 10 1 false "1,inf" "cycle" None))
  = Raised OverflowError.
Proof. vm_compute. reflexivity. Qed.

(** A NaN in the custom text is caught like any other malformed text. *)
Lemma nan_falls_back_to_range :
  snd (range_iterator hash_str init_state
         (mkArgs 0 10 1 false "1,nan" "cycle" None))
  = Returned (PInt 0) (PInt 1) false.
Proof. vm_compute. reflexivity. Qed.

(** C2. The committed index can leave the bounds: on a fresh instance
    with start=0, end=1, step=5, mode bounce, the call returns
    (0, -3, false) and stores the index -3, outside [0, 1]; with the
    custom list "1,2" the same step stores -3, outside [0, 1]. *)
Theorem bounce_by_5_commits_index_out_of_bounds :
  range_iterator hash_str init_state bounce_0_1_by_5
  = (mkState (Some (-3)) (-1) false "" (Some 0) (Some 1) (Some 5)
             (Some "bounce"%string) None,
     Returned (PInt 0) (PInt (-3)) false)
  /\ ~ (start bounce_0_1_by_5 <= -3 <= end_ bounce_0_1_by_5)
  /\ current_index (fst (range_iterator hash_str init_state bounce_pair_by_5))
     = Some (-3)
  /\ ~ (0 <= -3 <= PyList.len [PInt 1; PInt 2] - 1).
Proof.
  split; [vm_compute; reflexivity|].
  split; [simpl; lia|].
  split; [vm_compute; reflexivity|simpl; lia].
Qed.

(** *** The bounce step *)

Lemma range_iterator_advance (st st1 : State) (a : Args) (f : Frame.t) :
  prepare hash_str st a = (st1, inl f) ->
  range_iterator hash_str st a = advance st1 a f.
Proof. intros H. unfold range_iterator. now rewrite H. Qed.

(** The three branches of the bounce, in the order of the code. *)
Lemma bounce_step_cases
  (st st1 : State) (a : Args) (f : Frame.t) (cur : pyval) :
  mode a = "bounce"%string ->
  prepare hash_str st a = (st1, inl f) ->
  value_at (Frame.using_list f) (Frame.value_list f)
           (Frame.current_index f) = Some cur ->
  let U := upper_bound f in
  let L := lower_bound a f in
  let candidate := Frame.current_index f + step a * direction st1 in
  let st2 := fst (range_iterator hash_str st a) in
  (U < candidate ->
     direction st2 = -1
     /\ current_index st2 = Some (U - (candidate - U))
     /\ cycle_completed st2 = false)
  /\ (candidate <= U -> candidate < L ->
     direction st2 = 1
     /\ current_index st2 = Some (L + (L - candidate))
     /\ cycle_completed st2 = true)
  /\ (candidate <= U -> L <= candidate ->
     direction st2 = direction st1
     /\ current_index st2 = Some candidate
     /\ cycle_completed st2 = false)
  /\ (forall c n b,
        snd (range_iterator hash_str st a) = Returned c n b ->
        b = cycle_completed st2).
Proof.
  intros Hm Hp Hv U L candidate st2. subst st2.
  rewrite (range_iterator_advance _ _ _ _ Hp).
  pose proof (next_step_bounce st1 (Frame.using_list f) (Frame.value_list f)
                (Frame.list_end f) (start a) (Frame.end_ f) (step a)
                (Frame.current_index f)) as N.
  cbv zeta in N. rewrite <- Hm in N.
  fold (upper_bound f) (lower_bound a f) in N. fold U L candidate in N.
  destruct (Z.ltb_spec U candidate) as [H1|H1];
    [|destruct (Z.ltb_spec candidate L) as [H2|H2]];
    destruct (advance_commit _ _ _ _ _ _ Hv N) as [E1 E2];
    rewrite E1, E2; clear E1 E2 N; simpl;
    (repeat split; try lia; try reflexivity);
    intros c n b E;
    (break_match_in E; [injection E as _ _ <-|discriminate]);
    reflexivity.
Qed.

(** C3, amended.  In bounce mode, whenever the call gets as far as
    computing the candidate [i + step * direction] (the current value was
    read): if the candidate exceeds the upper bound U, the direction
    becomes -1, the committed index is U - (candidate - U) and the
    completion flag is false; otherwise, if the candidate is below the
    lower bound L, the direction becomes +1, the committed index is
    L + (L - candidate) and the flag is true; otherwise the candidate is
    committed, the direction kept and the flag false.  The test against
    the upper bound comes first: a candidate below L rebounds upwards only
    when it is not above U, which is always so when L <= U.  The returned
    flag is the stored one, so it is never true on a rebound from the upper
    bound. *)
Theorem bounce_reflects_at_bounds
  (st st1 : State) (a : Args) (f : Frame.t) (cur : pyval) :
  mode a = "bounce"%string ->
  prepare hash_str st a = (st1, inl f) ->
  value_at (Frame.using_list f) (Frame.value_list f)
           (Frame.current_index f) = Some cur ->
  let U := upper_bound f in
  let L := lower_bound a f in
  let candidate := Frame.current_index f + step a * direction st1 in
  let st2 := fst (range_iterator hash_str st a) in
  (U < candidate ->
     direction st2 = -1
     /\ current_index st2 = Some (U - (candidate - U))
     /\ cycle_completed st2 = false)
  /\ (candidate <= U -> candidate < L ->
     direction st2 = 1
     /\ current_index st2 = Some (L + (L - candidate))
     /\ cycle_completed st2 = true)
  /\ (candidate <= U -> L <= candidate ->
     direction st2 = direction st1
     /\ current_index st2 = Some candidate
     /\ cycle_completed st2 = false)
  /\ (forall c n b,
        snd (range_iterator hash_str st a) = Returned c n b ->
        b = cycle_completed st2)
  /\ (L <= U -> candidate < L ->
     direction st2 = 1
     /\ current_index st2 = Some (L + (L - candidate))
     /\ cycle_completed st2 = true).
Proof.
  intros Hm Hp Hv U L candidate st2.
  destruct (bounce_step_cases st st1 a f cur Hm Hp Hv)
    as (Hup & Hlow & Hin & Hflag).
  split; [exact Hup|]. split; [exact Hlow|]. split; [exact Hin|].
  split; [exact Hflag|].
  intros HLU Hc. apply Hlow; [|exact Hc]. fold L U candidate. lia.
Qed.

(** *** Source resolution and resets *)

Lemma range_iterator_snapshot (st : State) (a : Args) :
  snapshot_is hash_str a (fst (range_iterator hash_str st a)).
Proof.
  rewrite range_iterator_finish.
  pose proof (detect_changes_snapshot st a) as H.
  pose proof (finish_snapshot (fst (detect_changes hash_str st a))
                (snd (detect_changes hash_str st a)) a) as E.
  unfold snapshot_of in E. injection E as E1 E2 E3 E4 E5 E6.
  unfold snapshot_is in *. now rewrite E1, E2, E3, E4, E5, E6.
Qed.

Lemma same_decision_same_outcome (st : State) (a a' : Args) :
  fst (detect_changes hash_str st a) = fst (detect_changes hash_str st a') ->
  (forall b s, finish b s a' = finish b s a) ->
  snd (range_iterator hash_str st a) = snd (range_iterator hash_str st a').
Proof.
  intros Hb Hf. rewrite !range_iterator_finish, Hf, <- Hb.
  apply finish_cursor. now rewrite !detect_changes_cursor.
Qed.

(** *** Two instances side by side *)

Lemma detect_changes_but_text (st : State) (a : Args) :
  snapshot_but_text (snd (detect_changes hash_str st a))
  = (Some (start a), Some (end_ a), Some (step a), Some (mode a),
     match value_list a with
     | Some l => Some (hash_str l)
     | None => prev_value_list_hash st
     end).
Proof.
  destruct st. unfold detect_changes, snapshot_but_text. simpl.
  repeat (break_if; simpl); destruct (value_list a); simpl;
    repeat (break_if; simpl);
    repeat match goal with
      | H : differs_Z _ _ = false |- _ => apply differs_Z_false in H
      | H : differs_string _ _ = false |- _ =>
          apply differs_string_false in H
      end;
    subst; reflexivity.
Qed.

Lemma range_iterator_but_text (st : State) (a : Args) :
  snapshot_but_text (fst (range_iterator hash_str st a))
  = snapshot_but_text (snd (detect_changes hash_str st a)).
Proof.
  rewrite range_iterator_finish.
  apply snapshot_of_but_text, finish_snapshot.
Qed.

(** A call whose custom text yields no list and the call with the empty
    text, on two instances with the same cursor that take the same reset
    decision: same outcome, same cursor afterwards. *)
Lemma fall_back_call (st st' : State) (a : Args) :
  process_custom_values (custom_values a) (end_ a) = CustomDone None (end_ a) ->
  cursor_of st' = cursor_of st ->
  fst (detect_changes hash_str st' (with_custom_values "" a))
  = fst (detect_changes hash_str st a) ->
  snd (range_iterator hash_str st' (with_custom_values "" a))
  = snd (range_iterator hash_str st a)
  /\ cursor_of (fst (range_iterator hash_str st' (with_custom_values "" a)))
     = cursor_of (fst (range_iterator hash_str st a)).
Proof.
  intros P C D. rewrite !range_iterator_finish, D.
  rewrite (finish_with_custom_values _ _ a P).
  assert (C' : cursor_of (snd (detect_changes hash_str st'
                                 (with_custom_values "" a)))
               = cursor_of (snd (detect_changes hash_str st a)))
    by now rewrite !detect_changes_cursor.
  split; [now apply finish_cursor | now apply finish_cursor_state].
Qed.

Lemma side_by_side_decision (st st' : State) (a : Args) :
  side_by_side (custom_values a) st st' ->
  fst (detect_changes hash_str st' (with_custom_values "" a))
  = fst (detect_changes hash_str st a).
Proof.
  intros (_ & B & T & H). unfold snapshot_but_text in B.
  injection B as B1 B2 B3 B4 B5.
  rewrite !detect_changes_flag.
  change (custom_values (with_custom_values "" a)) with ""%string.
  change (reset_counter (with_custom_values "" a)) with (reset_counter a).
  change (start (with_custom_values "" a)) with (start a).
  change (end_ (with_custom_values "" a)) with (end_ a).
  change (step (with_custom_values "" a)) with (step a).
  change (mode (with_custom_values "" a)) with (mode a).
  change (value_list (with_custom_values "" a)) with (value_list a).
  rewrite T, B1, B2, B3, B4, B5.
  change (negb ("" =? "")%string) with false.
  destruct H as [H|H].
  - now rewrite H, String.eqb_refl.
  - rewrite H. change (differs_Z (start a) None) with true.
    now rewrite !orb_true_r.
Qed.

Lemma side_by_side_call (st st' : State) (a : Args) :
  malformed (custom_values a) ->
  side_by_side (custom_values a) st st' ->
  snd (range_iterator hash_str st' (with_custom_values "" a))
  = snd (range_iterator hash_str st a)
  /\ side_by_side (custom_values a)
       (fst (range_iterator hash_str st a))
       (fst (range_iterator hash_str st' (with_custom_values "" a))).
Proof.
  intros M S.
  pose proof (process_custom_values_malformed _ (end_ a) M) as P.
  pose proof (side_by_side_decision st st' a S) as D.
  destruct S as (C & B & T & H).
  destruct (fall_back_call st st' a P C D) as [E C2].
  split; [exact E|]. split; [exact C2|]. split; [|split].
  - rewrite !range_iterator_but_text, !detect_changes_but_text.
    unfold snapshot_but_text in B. injection B as _ _ _ _ ->. reflexivity.
  - exact (proj1 (range_iterator_snapshot st' (with_custom_values "" a))).
  - left. exact (proj1 (range_iterator_snapshot st a)).
Qed.

Lemma side_by_side_run (cv : string) (calls : list Args) :
  malformed cv ->
  Forall (fun c => custom_values c = cv) calls ->
  forall st st',
    side_by_side cv st st' ->
    snd (run hash_str st' (map (with_custom_values "") calls))
    = snd (run hash_str st calls).
Proof.
  intros M F. induction F as [|c rest Hc F IH]; intros st st' S;
    [reflexivity|].
  subst cv. destruct (side_by_side_call st st' c M S) as [E S2].
  specialize (IH _ _ S2). cbn [map run].
  destruct (range_iterator hash_str st c) as [s1 o].
  destruct (range_iterator hash_str st' (with_custom_values "" c))
    as [s1' o'].
  cbn [fst snd] in *. subst o'.
  destruct (run hash_str s1 rest) as [s2 os].
  destruct (run hash_str s1' (map (with_custom_values "") rest))
    as [s2' os'].
  cbn [fst snd] in *. now subst os'.
Qed.

(** C4, amended.  When an element of the custom text is not numeric, the
    parse is dropped without an exception ([custom_list] is [None], [end]
    is untouched), and the call returns what the call with an empty custom
    text returns: on the same state, provided the two calls take the same
    reset decision; on two states with the same cursor, provided the two
    calls take the same reset decision, and then the cursors agree again
    afterwards; in particular when each state holds the snapshot of its own
    call, so that each call continues its own sequence; and all along two
    runs on fresh instances whose calls carry this text and the empty
    text. *)
Theorem malformed_custom_values_fall_back (st : State) (a : Args) :
  malformed (custom_values a) ->
  process_custom_values (custom_values a) (end_ a) = CustomDone None (end_ a)
  /\ (fst (detect_changes hash_str st a)
      = fst (detect_changes hash_str st (with_custom_values "" a)) ->
      snd (range_iterator hash_str st a)
      = snd (range_iterator hash_str st (with_custom_values "" a)))
  /\ (forall st',
        cursor_of st' = cursor_of st ->
        fst (detect_changes hash_str st' (with_custom_values "" a))
        = fst (detect_changes hash_str st a) ->
        snd (range_iterator hash_str st' (with_custom_values "" a))
        = snd (range_iterator hash_str st a)
        /\ cursor_of (fst (range_iterator hash_str st'
                             (with_custom_values "" a)))
           = cursor_of (fst (range_iterator hash_str st a)))
  /\ (forall st',
        cursor_of st' = cursor_of st ->
        snapshot_is hash_str a st ->
        snapshot_is hash_str (with_custom_values "" a) st' ->
        snd (range_iterator hash_str st' (with_custom_values "" a))
        = snd (range_iterator hash_str st a))
  /\ (forall calls,
        Forall (fun c => custom_values c = custom_values a) calls ->
        snd (run hash_str init_state (map (with_custom_values "") calls))
        = snd (run hash_str init_state calls)).
Proof.
  intros H. pose proof (process_custom_values_malformed _ (end_ a) H) as P.
  split; [exact P|]. split; [|split; [|split]].
  - intros Hb. apply same_decision_same_outcome; [exact Hb|].
    intros b s. now apply finish_with_custom_values.
  - intros st' C D. now apply fall_back_call.
  - intros st' C S S'. apply fall_back_call; [exact P|exact C|].
    now rewrite (detect_changes_stable _ _ S), (detect_changes_stable _ _ S').
  - intros calls F. apply (side_by_side_run _ calls H F).
    repeat split. now right.
Qed.

(** C10, amended.  When the custom text yields no list and the supplied
    list is empty, the list flag is false, the frame is that of the plain
    range ([end] untouched, no list), every returned value is the index
    itself, and the call returns what the same call without a list
    returns on the same state, provided the two calls take the same reset
    decision. *)
Theorem empty_value_list_uses_range (st : State) (a : Args) (e' : Z) :
  process_custom_values (custom_values a) (end_ a) = CustomDone None e' ->
  value_list a = Some [] ->
  (exists st1 i,
      prepare hash_str st a = (st1, inl (Frame.mk false [] (-1) (end_ a) i)))
  /\ (forall c n b,
        snd (range_iterator hash_str st a) = Returned c n b ->
        exists i j, c = PInt i /\ n = PInt j)
  /\ (fst (detect_changes hash_str st a)
      = fst (detect_changes hash_str st (with_value_list None a)) ->
      snd (range_iterator hash_str st a)
      = snd (range_iterator hash_str st (with_value_list None a))).
Proof.
  intros P E.
  pose proof (process_custom_values_None_end _ _ _ P) as ->.
  assert (F : exists st1 i,
             prepare hash_str st a
             = (st1, inl (Frame.mk false [] (-1) (end_ a) i))).
  { unfold prepare. destruct (detect_changes hash_str st a) as [b s].
    unfold resolve_and_init. rewrite P, E. simpl.
    destruct (init_or_reset b (start a) s) as [i s']. eauto. }
  split; [exact F|]. split.
  - destruct F as (st1 & i & F). intros c n b.
    rewrite (range_iterator_advance _ _ _ _ F). unfold advance. simpl.
    destruct (next_step _ _ _ _ _ _ _ _ _) as [[j s']|]; simpl;
      [|discriminate].
    intros [= <- <- _]. eauto.
  - intros Hb. apply same_decision_same_outcome; [exact Hb|].
    intros b s. now apply finish_empty_list.
Qed.

(** The reset triggers, for the calls that get past the parse of the
    custom text.  When the custom text, start, end, step or mode differs
    from the stored snapshot, or [reset_counter] is set, the reset flag is
    raised; the index held before the step is then [start] (clamped to the
    end of the list when a list is used), the direction +1 and the
    completion flag false, and the call returns what a fresh instance
    returns.  In particular a call that differs from the previous one in
    [step] alone starts again from [start]. *)
Theorem changed_configuration_resets (st : State) (a : Args) :
  reset_counter a = true
  \/ custom_values a <> prev_custom_values st
  \/ prev_start st <> Some (start a)
  \/ prev_end st <> Some (end_ a)
  \/ prev_step st <> Some (step a)
  \/ prev_mode st <> Some (mode a) ->
  fst (detect_changes hash_str st a) = true
  /\ (forall st1 f,
        prepare hash_str st a = (st1, inl f) ->
        Frame.current_index f
        = clamp_to_list (Frame.using_list f) (Frame.list_end f) (start a)
        /\ (Frame.using_list f = false \/ start a <= Frame.list_end f ->
            Frame.current_index f = start a)
        /\ current_index st1 = Some (Frame.current_index f)
        /\ direction st1 = 1
        /\ cycle_completed st1 = false)
  /\ snd (range_iterator hash_str st a)
     = snd (range_iterator hash_str init_state a)
  /\ (forall s', s' <> step a ->
        snd (range_iterator hash_str (fst (range_iterator hash_str st a))
                            (with_step s' a))
        = snd (range_iterator hash_str init_state (with_step s' a))).
Proof.
  intros H.
  assert (D : forall s x, prev_step s <> Some (step x) ->
                          fst (detect_changes hash_str s x) = true).
  { intros s x Hs. apply differs_Z_true in Hs.
    rewrite detect_changes_flag, Hs.
    now rewrite !orb_true_r. }
  assert (R : fst (detect_changes hash_str st a) = true).
  { destruct H as [H | [H | [H | [H | [H | H]]]]].
    - rewrite detect_changes_flag, H. reflexivity.
    - apply String.eqb_neq in H. rewrite detect_changes_flag, H.
      simpl. now rewrite !orb_true_r.
    - apply differs_Z_true in H. rewrite detect_changes_flag, H.
      now rewrite !orb_true_r.
    - apply differs_Z_true in H. rewrite detect_changes_flag, H.
      now rewrite !orb_true_r.
    - now apply D.
    - apply differs_string_true in H. rewrite detect_changes_flag, H.
      now rewrite !orb_true_r. }
  split; [exact R|]. split; [|split].
  - intros st1 f. unfold prepare.
    destruct (detect_changes hash_str st a) as [b s]. simpl in R. subst b.
    unfold resolve_and_init.
    destruct (process_custom_values _ _); [|discriminate].
    rewrite (init_or_reset_fresh true (start a) s (or_introl eq_refl)).
    intros [= <- <-]. simpl. repeat split.
    unfold clamp_to_list. intros [-> | Hle]; [reflexivity|].
    destruct (using_list_of _); [|reflexivity].
    destruct (Z.ltb_spec (PyList.len (list_of
                (effective_list custom_list (value_list a))) - 1)
                (start a)); simpl in *; [lia|reflexivity].
  - rewrite !range_iterator_finish. apply finish_reset.
    + now left.
    + right. pose proof (detect_changes_cursor init_state a) as C.
      apply cursor_of_eq in C. now destruct C as [-> _].
  - intros s' Hs'.
    destruct (range_iterator_snapshot st a) as (_ & _ & _ & Hp & _).
    set (st' := fst (range_iterator hash_str st a)) in *.
    rewrite !range_iterator_finish. apply finish_reset.
    + left. apply D. rewrite Hp. simpl. congruence.
    + right. pose proof (detect_changes_cursor init_state (with_step s' a)) as C.
      apply cursor_of_eq in C. now destruct C as [-> _].
Qed.

(** C8. A changed custom text does not always reinitialise the state.
    Three calls of a bounce over 0..5 with step 2 leave the index 4 and
    the direction -1.  The next call differs in the custom text alone,
    which is now "inf": the change is detected and the snapshot brought up
    to date, but [int(inf)] raises [OverflowError], which the handler for
    [ValueError] lets pass, and the call ends before the reset: the index
    stays 4, not [start] = 0, and the direction -1, not +1.  The snapshot
    now holds "inf", so the same call made again detects no change and
    raises again.  ("nan" in place of "inf" raises [ValueError], is caught,
    and the call resets.) *)
Theorem changed_text_inf_raises_before_reset :
  let st := state_after hash_str init_state bounce_0_5_by_2 3 in
  let a := with_custom_values "inf" bounce_0_5_by_2 in
  st = mkState (Some 4) (-1) false "" (Some 0) (Some 5) (Some 2)
               (Some "bounce"%string) None
  /\ custom_values a <> prev_custom_values st
  /\ fst (detect_changes hash_str st a) = true
  /\ range_iterator hash_str st a
     = (mkState (Some 4) (-1) false "inf" (Some 0) (Some 5) (Some 2)
                (Some "bounce"%string) None,
        Raised OverflowError)
  /\ current_index (fst (range_iterator hash_str st a)) <> Some (start a)
  /\ direction (fst (range_iterator hash_str st a)) <> 1
  /\ fst (detect_changes hash_str (fst (range_iterator hash_str st a)) a)
     = false
  /\ snd (range_iterator hash_str (fst (range_iterator hash_str st a)) a)
     = Raised OverflowError
  /\ range_iterator hash_str st (with_custom_values "nan" bounce_0_5_by_2)
     = (mkState (Some 2) 1 false "nan" (Some 0) (Some 5) (Some 2)
                (Some "bounce"%string) None,
        Returned (PInt 0) (PInt 2) false).
Proof.
  cbv zeta.
  repeat split; try (vm_compute; reflexivity); vm_compute; discriminate.
Qed.

(** *** The frame of a call *)

Lemma prepare_eq (st : State) (a : Args) :
  prepare hash_str st a =
  let b := fst (detect_changes hash_str st a) in
  let s := snd (detect_changes hash_str st a) in
  match process_custom_values (custom_values a) (end_ a) with
  | CustomRaised e => (s, inr e)
  | CustomDone custom_list end' =>
      let vl := effective_list custom_list (value_list a) in
      let i := clamp_to_list (using_list_of vl) (PyList.len (list_of vl) - 1)
                             (fst (init_or_reset b (start a) s)) in
      (set_current_index (Some i) (snd (init_or_reset b (start a) s)),
       inl (Frame.mk (using_list_of vl) (list_of vl)
                     (PyList.len (list_of vl) - 1) end' i))
  end.
Proof.
  unfold prepare, resolve_and_init.
  destruct (detect_changes hash_str st a) as [b s]. simpl.
  destruct (process_custom_values _ _); [|reflexivity].
  destruct (init_or_reset b (start a) s). reflexivity.
Qed.


(** *** Once mode at the end of the range *)

Lemma once_0_3_step (st : State) :
  current_index st = Some 3 ->
  snapshot_is hash_str once_0_3 st ->
  range_iterator hash_str st once_0_3
  = (set_cycle_completed true st, Returned (PInt 3) (PInt 3) true).
Proof.
  intros Hi Hs. unfold range_iterator. rewrite prepare_eq.
  rewrite (detect_changes_stable _ _ Hs). cbv zeta.
  change (process_custom_values (custom_values once_0_3) (end_ once_0_3))
    with (CustomDone None 3).
  cbv iota. simpl fst. simpl snd. unfold init_or_reset. rewrite Hi.
  destruct st. simpl in Hi. subst. reflexivity.
Qed.

(** C7. With start=0, end=3, step=1, mode once, no custom values and no
    value list: from any state whose stored index is 3 and whose snapshot
    is this configuration, every further call (without [reset_counter])
    returns (3, 3, true) and leaves the stored index at 3, for any number
    of calls. *)
Theorem once_0_3_stays_at_end (st : State) (n : nat) :
  current_index st = Some 3 ->
  snapshot_is hash_str once_0_3 st ->
  snd (run hash_str st (repeat once_0_3 n))
  = repeat (Returned (PInt 3) (PInt 3) true) n
  /\ current_index (fst (run hash_str st (repeat once_0_3 n))) = Some 3
  /\ snapshot_is hash_str once_0_3 (fst (run hash_str st (repeat once_0_3 n))).
Proof.
  revert st. induction n as [|n IH]; intros st Hi Hs.
  - simpl. auto.
  - simpl. rewrite (once_0_3_step st Hi Hs).
    assert (Hi' : current_index (set_cycle_completed true st) = Some 3)
      by exact Hi.
    assert (Hs' : snapshot_is hash_str once_0_3 (set_cycle_completed true st))
      by exact Hs.
    destruct (IH _ Hi' Hs') as (E1 & E2 & E3).
    destruct (run hash_str (set_cycle_completed true st)
                  (repeat once_0_3 n)) as [st2 os].
    simpl in *. rewrite E1. auto.
Qed.

(** From a fresh instance the index reaches 3 with the third call. *)
Lemma once_0_3_reaches_end :
  run hash_str init_state (repeat once_0_3 3)
  = (mkState (Some 3) 1 false "" (Some 0) (Some 3) (Some 1)
             (Some "once"%string) None,
     [Returned (PInt 0) (PInt 1) false; Returned (PInt 1) (PInt 2) false;
      Returned (PInt 2) (PInt 3) false]).
Proof. vm_compute. reflexivity. Qed.

(** *** Current and next value *)

Lemma set_current_index_same (st : State) (j : Z) :
  current_index st = Some j -> set_current_index (Some j) st = st.
Proof. destruct st. simpl. now intros ->. Qed.



(** *** Steps that stay within the bounds *)

Lemma index_in_range {A : Type} (l : list A) (i : Z) :
  0 <= i < PyList.len l -> exists v, PyList.index l i = Some v.
Proof.
  unfold PyList.index, PyList.len. intros H.
  destruct (Z.leb_spec 0 i); [|lia].
  destruct (Z.ltb_spec i (Z.of_nat (List.length l))); [|lia]. simpl.
  destruct (nth_error l (Z.to_nat i)) eqn:E; [eauto|].
  apply nth_error_None in E. lia.
Qed.

Lemma prepare_frame_list (st st1 : State) (a : Args) (f : Frame.t) :
  prepare hash_str st a = (st1, inl f) ->
  Frame.list_end f = PyList.len (Frame.value_list f) - 1
  /\ (Frame.using_list f = true -> 0 < PyList.len (Frame.value_list f)).
Proof.
  rewrite prepare_eq. cbv zeta.
  destruct (process_custom_values _ _) as [cl e'|]; [|discriminate].
  intros [= _ <-]. simpl. split; [reflexivity|].
  unfold using_list_of, list_of.
  destruct (effective_list cl (value_list a)); [|discriminate].
  apply Z.ltb_lt.
Qed.

(** When the index held before the step lies within the bounds and the
    step is not negative, the call returns and commits an index within
    the bounds in cycle mode (direction +1) and in once mode, and in
    bounce mode as long as the step does not exceed the width of the
    bounds. *)
Theorem small_step_stays_in_bounds
  (st st1 : State) (a : Args) (f : Frame.t) :
  prepare hash_str st a = (st1, inl f) ->
  lower_bound a f <= Frame.current_index f <= upper_bound f ->
  0 <= step a ->
  (mode a = "cycle"%string /\ direction st1 = 1)
  \/ mode a = "once"%string
  \/ (mode a = "bounce"%string
      /\ (direction st1 = 1 \/ direction st1 = -1)
      /\ step a <= upper_bound f - lower_bound a f) ->
  exists c n j s',
    next_step st1 (mode a) (Frame.using_list f) (Frame.value_list f)
              (Frame.list_end f) (start a) (Frame.end_ f) (step a)
              (Frame.current_index f) = Some (j, s')
    /\ range_iterator hash_str st a
       = (set_current_index (Some j) s', Returned c n (cycle_completed s'))
    /\ lower_bound a f <= j <= upper_bound f.
Proof.
  intros Hp Hb Hs Hm.
  destruct (prepare_frame_list _ _ _ _ Hp) as [Hle Hlen].
  rewrite (range_iterator_advance _ _ _ _ Hp).
  unfold lower_bound, upper_bound in *.
  assert (V : forall j,
             (if Frame.using_list f then 0 else start a) <= j
             <= (if Frame.using_list f then Frame.list_end f
                 else Frame.end_ f) ->
             exists v, value_at (Frame.using_list f) (Frame.value_list f) j
                       = Some v).
  { intros j Hj. unfold value_at.
    destruct (Frame.using_list f); [|eauto].
    apply index_in_range. lia. }
  destruct (V _ Hb) as [c Hc].
  assert (N : exists j s',
             next_step st1 (mode a) (Frame.using_list f)
               (Frame.value_list f) (Frame.list_end f) (start a)
               (Frame.end_ f) (step a) (Frame.current_index f)
             = Some (j, s')
             /\ (if Frame.using_list f then 0 else start a) <= j
                <= (if Frame.using_list f then Frame.list_end f
                    else Frame.end_ f)).
  { unfold next_step.
    destruct Hm as [[-> Hd] | [-> | (-> & Hd & Hw)]].
    - change (("cycle" =? "cycle")%string) with true. cbv iota.
      rewrite Hd, Z.mul_1_r.
      destruct (Frame.using_list f) eqn:U.
      + specialize (Hlen eq_refl).
        destruct (Z.ltb_spec (Frame.list_end f)
                             (Frame.current_index f + step a)).
        * eexists _, _. split; [reflexivity|].
          pose proof (Z.mod_pos_bound
                        (Frame.current_index f + step a)
                        (PyList.len (Frame.value_list f)) Hlen).
          lia.
        * eexists _, _. split; [reflexivity|lia].
      + destruct (Z.ltb_spec (Frame.end_ f)
                             (Frame.current_index f + step a));
          eexists _, _; (split; [reflexivity|lia]).
    - change (("once" =? "cycle")%string) with false.
      change (("once" =? "bounce")%string) with false.
      change (("once" =? "once")%string) with true. cbv iota.
      destruct (Frame.using_list f) eqn:U.
      + destruct (Z.ltb_spec (Frame.list_end f)
                             (Frame.current_index f + step a));
          eexists _, _; (split; [reflexivity|lia]).
      + destruct (Z.ltb_spec (Frame.end_ f)
                             (Frame.current_index f + step a));
          eexists _, _; (split; [reflexivity|lia]).
    - change (("bounce" =? "cycle")%string) with false.
      change (("bounce" =? "bounce")%string) with true. cbv iota.
      destruct (Frame.using_list f) eqn:U.
      + destruct (Z.ltb_spec (Frame.list_end f)
                   (Frame.current_index f + step a * direction st1));
          [|destruct (Z.ltb_spec
                        (Frame.current_index f + step a * direction st1) 0)];
          eexists _, _; (split; [reflexivity|]);
          destruct Hd as [Hd|Hd]; rewrite Hd in *; lia.
      + destruct (Z.ltb_spec (Frame.end_ f)
                   (Frame.current_index f + step a * direction st1));
          [|destruct (Z.ltb_spec
                        (Frame.current_index f + step a * direction st1)
                        (start a))];
          eexists _, _; (split; [reflexivity|]);
          destruct Hd as [Hd|Hd]; rewrite Hd in *; lia. }
  destruct N as (j & s' & Hn & Hj).
  destruct (V _ Hj) as [n Hv].
  destruct (advance_commit _ _ _ _ _ _ Hc Hn) as [E1 E2].
  rewrite Hv in E2.
  exists c, n, j, s'. split; [exact Hn|]. split; [|exact Hj].
  rewrite <- E1, <- E2. now destruct (advance st1 a f).
Qed.

(** *** Runs that stay within the bounds *)

Lemma next_step_direction (a : Args) (s s' : State) (ul : bool)
  (l : list pyval) (le s0 e sp i j : Z) :
  next_step s (mode a) ul l le s0 e sp i = Some (j, s') ->
  direction_ok a s -> direction_ok a s'.
Proof.
  unfold next_step, direction_ok. intros H D.
  destruct (String.eqb_spec (mode a) "cycle");
    [|destruct (String.eqb_spec (mode a) "bounce")].
  - repeat break_if_in H; injection H as _ <-; exact D.
  - repeat break_if_in H; injection H as _ <-; simpl; auto.
  - repeat break_if_in H; try discriminate; injection H as _ <-; exact D.
Qed.

Lemma bounds_of_frame (st st1 : State) (a : Args) (f : Frame.t) (L U : Z) :
  bounds a = Some (L, U) ->
  prepare hash_str st a = (st1, inl f) ->
  lower_bound a f = L /\ upper_bound f = U.
Proof.
  unfold bounds. rewrite prepare_eq. cbv zeta.
  destruct (process_custom_values _ _) as [cl e'|]; [|discriminate].
  intros B [= _ <-]. unfold lower_bound, upper_bound.
  cbn [Frame.using_list Frame.list_end Frame.end_].
  destruct (using_list_of _); injection B as <- <-; auto.
Qed.


Lemma init_or_reset_inv (b : bool) (a : Args) (s : State) :
  direction_ok a s ->
  direction_ok a (snd (init_or_reset b (start a) s))
  /\ (fst (init_or_reset b (start a) s) = start a
      \/ current_index s = Some (fst (init_or_reset b (start a) s))).
Proof.
  intros D. unfold init_or_reset.
  destruct (current_index s) as [i|]; [destruct b|]; cbn [fst snd].
  - split; [now left|now left].
  - split; [exact D|now right].
  - split; [now left|now left].
Qed.

(** One call under well-formed arguments, from the index and the
    direction that the initialisation leaves: it returns, and the bounds and
    the direction invariant hold afterwards. *)
Lemma well_formed_call_from (st : State) (a : Args) (L U : Z) :
  well_formed a L U ->
  let b0 := fst (detect_changes hash_str st a) in
  let s0 := snd (detect_changes hash_str st a) in
  direction_ok a (snd (init_or_reset b0 (start a) s0)) ->
  fst (init_or_reset b0 (start a) s0) = start a
  \/ L <= fst (init_or_reset b0 (start a) s0) <= U ->
  exists st' c n b j,
    range_iterator hash_str st a = (st', Returned c n b)
    /\ current_index st' = Some j
    /\ L <= j <= U
    /\ in_bounds a L U st'.
Proof.
  intros (B & HLU & Hstart & Hstep & Hmode) b0 s0 D1 I0.
  destruct (prepare hash_str st a) as [st1 r] eqn:Hp.
  pose proof Hp as Hq. rewrite prepare_eq in Hq. cbv zeta in Hq.
  pose proof B as B'. unfold bounds in B'.
  destruct (process_custom_values (custom_values a) (end_ a))
    as [cl e'|]; [|discriminate].
  fold b0 s0 in Hq.
  set (i0 := fst (init_or_reset b0 (start a) s0)) in *.
  set (s1 := snd (init_or_reset b0 (start a) s0)) in *.
  set (vl := effective_list cl (value_list a)) in *.
  injection Hq as Hst1 Hr. subst r.
  destruct (bounds_of_frame _ _ _ _ L U B Hp) as [HL HU].
  assert (Hi : L <= clamp_to_list (using_list_of vl)
                      (PyList.len (list_of vl) - 1) i0 <= U).
  { unfold clamp_to_list.
    destruct (using_list_of vl) eqn:UL; injection B' as BL BU.
    - cbn [andb].
      destruct (Z.ltb_spec (PyList.len (list_of vl) - 1) i0); lia.
    - cbn [andb]. lia. }
  assert (D2 : direction_ok a st1).
  { rewrite <- Hst1. exact D1. }
  destruct (small_step_stays_in_bounds st st1 a _ Hp) as
    (c & n & j & s' & Hn & Hrun & Hj).
  - rewrite HL, HU. exact Hi.
  - exact Hstep.
  - rewrite HL, HU. unfold direction_ok in D2.
    destruct Hmode as [M | [M | [M W]]].
    + left. split; [exact M|]. destruct D2 as [D2 | [M' _]];
        [exact D2|congruence].
    + right. now left.
    + right. right. split; [exact M|]. split; [|exact W].
      destruct D2 as [D2 | [_ D2]]; auto.
  - exists (set_current_index (Some j) s'), c, n, (cycle_completed s'), j.
    rewrite HL, HU in Hj.
    pose proof (next_step_direction _ _ _ _ _ _ _ _ _ _ _ Hn D2) as D3.
    split; [exact Hrun|]. split; [reflexivity|]. split; [exact Hj|].
    split; [exact D3|exact Hj].
Qed.

(** One call under well-formed arguments: it returns, and the bounds and
    the direction invariant hold again afterwards. *)
Theorem well_formed_call_in_bounds (st : State) (a : Args) (L U : Z) :
  well_formed a L U ->
  in_bounds a L U st ->
  exists st' c n b j,
    range_iterator hash_str st a = (st', Returned c n b)
    /\ current_index st' = Some j
    /\ L <= j <= U
    /\ in_bounds a L U st'.
Proof.
  intros W (D & I).
  pose proof (detect_changes_cursor st a) as C.
  apply cursor_of_eq in C. destruct C as (Ci & Cd & _).
  assert (D0 : direction_ok a (snd (detect_changes hash_str st a))).
  { unfold direction_ok in *. now rewrite Cd. }
  destruct (init_or_reset_inv (fst (detect_changes hash_str st a)) a _ D0)
    as [D1 I1].
  apply (well_formed_call_from st a L U W D1).
  destruct I1 as [I1|I1]; [now left|right].
  rewrite Ci in I1. now rewrite I1 in I.
Qed.

(** Any number of calls under well-formed arguments, from a state within
    the bounds: every call returns and the state stays within the bounds. *)
Lemma in_bounds_run (st : State) (a : Args) (L U : Z) (k : nat) :
  well_formed a L U ->
  in_bounds a L U st ->
  Forall returned (snd (run hash_str st (repeat a k)))
  /\ in_bounds a L U (fst (run hash_str st (repeat a k))).
Proof.
  intros W. revert st. induction k as [|k IH]; intros st I.
  - cbn [repeat run fst snd]. split; [constructor|exact I].
  - cbn [repeat run].
    destruct (well_formed_call_in_bounds st a L U W I)
      as (st' & c & n & b & j & E & _ & _ & I').
    rewrite E. destruct (IH st' I') as [F I''].
    destruct (run hash_str st' (repeat a k)) as [st2 os].
    cbn [fst snd] in *. split; [|exact I''].
    constructor; [|exact F]. unfold returned. eauto.
Qed.

(** *** The direction of reachable states *)

Lemma detect_changes_no_reset (st : State) (a : Args) :
  fst (detect_changes hash_str st a) = false ->
  prev_custom_values st = custom_values a /\ prev_mode st = Some (mode a).
Proof.
  rewrite detect_changes_flag. intros H.
  apply orb_false_iff in H. destruct H as [H _].
  apply orb_false_iff in H. destruct H as [H Hm].
  apply orb_false_iff in H. destruct H as [H _].
  apply orb_false_iff in H. destruct H as [H _].
  apply orb_false_iff in H. destruct H as [H _].
  apply orb_false_iff in H. destruct H as [_ Hc].
  apply negb_false_iff, String.eqb_eq in Hc.
  apply differs_string_false in Hm. now split.
Qed.

Lemma advance_direction (a : Args) (s : State) (f : Frame.t) :
  direction_ok a s -> direction_ok a (fst (advance s a f)).
Proof.
  intros D. unfold advance.
  destruct (value_at _ _ (Frame.current_index f)); [|exact D].
  destruct (next_step s _ _ _ _ _ _ _ _) as [[j s']|] eqn:N; [|exact D].
  apply (next_step_direction _ _ _ _ _ _ _ _ _ _ _ N) in D.
  destruct (value_at _ _ j); exact D.
Qed.

(** The direction that the initialisation leaves fits the mode of the
    call, when the custom text of the call does not raise. *)
Lemma init_direction (st : State) (a : Args) :
  direction_settled st ->
  parse_custom_values (custom_values a) <> ParseOverflowError ->
  direction_ok a
    (snd (init_or_reset (fst (detect_changes hash_str st a)) (start a)
            (snd (detect_changes hash_str st a)))).
Proof.
  intros I P.
  pose proof (detect_changes_cursor st a) as C.
  apply cursor_of_eq in C. destruct C as (Ci & Cd & _).
  destruct (fst (detect_changes hash_str st a)) eqn:B.
  - rewrite init_or_reset_fresh; [now left|now left].
  - destruct (current_index (snd (detect_changes hash_str st a))) eqn:E.
    + unfold init_or_reset. rewrite E. cbn [snd].
      destruct (detect_changes_no_reset st a B) as [Hc Hm].
      unfold direction_ok. rewrite Cd.
      destruct I as [I | [[I M] | I]].
      * now left.
      * right. split; [congruence|exact I].
      * rewrite Hc in I. contradiction.
    + rewrite init_or_reset_fresh; [now left|now right].
Qed.

(** After a call the direction fits the mode of the call, unless the call
    left with the [OverflowError] of its custom text. *)
Lemma direction_after_call (st : State) (a : Args) :
  direction_settled st ->
  direction_ok a (fst (range_iterator hash_str st a))
  \/ parse_custom_values (custom_values a) = ParseOverflowError.
Proof.
  intros I. rewrite range_iterator_finish, finish_after_init, process_by_parse.
  destruct (parse_custom_values (custom_values a)) eqn:P;
    [left|left|now right];
    cbv zeta; apply advance_direction;
    apply (init_direction st a I); rewrite P; discriminate.
Qed.

Lemma direction_settled_call (st : State) (a : Args) :
  direction_settled st ->
  direction_settled (fst (range_iterator hash_str st a)).
Proof.
  intros I.
  destruct (range_iterator_snapshot st a) as (Hc & _ & _ & _ & Hm & _).
  unfold direction_settled. rewrite Hc, Hm.
  destruct (direction_after_call st a I) as [[D | [M D]] | O].
  - now left.
  - right. left. split; [exact D|now rewrite M].
  - now right; right.
Qed.

Lemma direction_settled_run (calls : list Args) :
  forall st,
    direction_settled st ->
    direction_settled (fst (run hash_str st calls)).
Proof.
  induction calls as [|c rest IH]; intros st I; [exact I|].
  cbn [run]. pose proof (direction_settled_call st c I) as I1.
  destruct (range_iterator hash_str st c) as [s1 o]. cbn [fst] in I1.
  specialize (IH s1 I1).
  destruct (run hash_str s1 rest) as [s2 os]. exact IH.
Qed.

Lemma reachable_direction_settled (st : State) :
  reachable hash_str st -> direction_settled st.
Proof.
  intros [calls ->]. apply direction_settled_run. now left.
Qed.

(** A settled direction fits the mode of a call that does not reset and
    does not raise in the parse. *)
Lemma settled_direction_ok (st : State) (a : Args) (L U : Z) :
  well_formed a L U ->
  direction_settled st ->
  fst (detect_changes hash_str st a) = false ->
  direction_ok a st.
Proof.
  intros (B & _) I D. destruct (detect_changes_no_reset st a D) as [Hc Hm].
  unfold bounds in B. rewrite process_by_parse in B.
  unfold direction_ok. destruct I as [I | [[I M] | I]].
  - now left.
  - right. split; [congruence|exact I].
  - rewrite Hc in I. rewrite I in B. discriminate B.
Qed.

(** X1. Any number of calls under well-formed arguments: every call
    returns, and after the first call the stored index lies within the
    bounds, whenever the first call resets, or the state is fresh, or the
    stored index lies within the bounds and the state either is reachable
    from a fresh instance (by whatever calls) or holds a direction that
    fits the mode (+1, or -1 in bounce mode). *)
Theorem well_formed_run_in_bounds
  (st : State) (a : Args) (L U : Z) (k : nat) :
  well_formed a L U ->
  starts_within hash_str a L U st ->
  Forall returned (snd (run hash_str st (repeat a k)))
  /\ (k <> O -> in_bounds a L U (fst (run hash_str st (repeat a k)))).
Proof.
  intros W S. destruct k as [|k];
    [split; [constructor|intros H; now contradiction H]|].
  assert (E : exists st' c n b,
             range_iterator hash_str st a = (st', Returned c n b)
             /\ in_bounds a L U st').
  { assert (G : forall i,
               direction_ok a st -> current_index st = Some i ->
               L <= i <= U ->
               exists st' c n b,
                 range_iterator hash_str st a = (st', Returned c n b)
                 /\ in_bounds a L U st').
    { intros i D Hi Hb.
      destruct (well_formed_call_in_bounds st a L U W) as
        (st' & c & n & b & j & E & _ & _ & I').
      - split; [exact D|]. now rewrite Hi.
      - eauto 6. }
    assert (F : fst (detect_changes hash_str st a) = true
                \/ current_index st = None ->
                exists st' c n b,
                  range_iterator hash_str st a = (st', Returned c n b)
                  /\ in_bounds a L U st').
    { intros H.
      assert (H' : fst (detect_changes hash_str st a) = true
                   \/ current_index (snd (detect_changes hash_str st a))
                      = None).
      { destruct H as [H|H]; [now left|right].
        pose proof (detect_changes_cursor st a) as C.
        apply cursor_of_eq in C. destruct C as [-> _]. exact H. }
      destruct (well_formed_call_from st a L U W) as
        (st' & c & n & b & j & E & _ & _ & I').
      - rewrite (init_or_reset_fresh _ _ _ H'). now left.
      - rewrite (init_or_reset_fresh _ _ _ H'). now left.
      - eauto 6. }
    destruct S as [S | [S | [[D | R] (i & Hi & Hb)]]].
    - apply F. now left.
    - apply F. now right.
    - now apply (G i).
    - destruct (fst (detect_changes hash_str st a)) eqn:B.
      + apply F. now left.
      + apply (G i); [|exact Hi|exact Hb].
        apply (settled_direction_ok st a L U W); [|exact B].
        now apply reachable_direction_settled. }
  destruct E as (st' & c & n & b & E & I').
  cbn [repeat run]. rewrite E.
  destruct (in_bounds_run st' a L U k W I') as [F I''].
  destruct (run hash_str st' (repeat a k)) as [st2 os].
  cbn [fst snd] in *. split; [|intros _; exact I''].
  constructor; [|exact F]. unfold returned. eauto.
Qed.

(** A fresh instance is within any bounds. *)
Lemma init_state_in_bounds (a : Args) (L U : Z) : in_bounds a L U init_state.
Proof. split; [now left|exact Logic.I]. Qed.

(** *** Calls that cannot fail, and calls that cannot succeed *)

(** X2. When no list is in use (the custom text gives none and the
    supplied list is absent or empty) and the mode is one of the three,
    the call returns for every state and for all integer arguments; both
    returned values are indices, and the second one is the stored index. *)
Theorem range_mode_always_returns (st : State) (a : Args) :
  known_mode (mode a) ->
  uses_range a ->
  exists i j b,
    snd (range_iterator hash_str st a) = Returned (PInt i) (PInt j) b
    /\ current_index (fst (range_iterator hash_str st a)) = Some j.
Proof.
  intros M [P U].
  destruct (prepare hash_str st a) as [st1 r] eqn:Hp.
  pose proof Hp as Hq. rewrite prepare_eq, P in Hq. cbv zeta in Hq.
  cbn [effective_list] in Hq. rewrite U in Hq.
  injection Hq as _ <-.
  rewrite (range_iterator_advance _ _ _ _ Hp).
  unfold advance. cbn [Frame.using_list Frame.value_list Frame.current_index
                       Frame.list_end Frame.end_ value_at].
  destruct (next_step_known_mode st1 (mode a) false
              (list_of (value_list a)) (PyList.len (list_of (value_list a)) - 1)
              (start a) (end_ a) (step a)
              (clamp_to_list false (PyList.len (list_of (value_list a)) - 1)
                 (fst (init_or_reset (fst (detect_changes hash_str st a))
                         (start a) (snd (detect_changes hash_str st a))))) M)
    as (j & s' & N).
  rewrite N. cbn [fst snd]. eauto.
Qed.

(** X3. With a mode other than "cycle", "bounce" and "once" no call
    returns.  When no list is in use the call raises [UnboundLocalError]
    with the state as it stood before the step: the configuration is
    recorded and the index initialised, but not advanced. *)
Theorem unknown_mode_never_returns (st : State) (a : Args) :
  ~ known_mode (mode a) ->
  ~ returned (snd (range_iterator hash_str st a))
  /\ (uses_range a ->
      exists st1 f,
        prepare hash_str st a = (st1, inl f)
        /\ current_index st1 = Some (Frame.current_index f)
        /\ range_iterator hash_str st a = (st1, Raised UnboundLocalError)).
Proof.
  intros M. split.
  - intros (c & n & b & R). unfold range_iterator in R.
    destruct (prepare hash_str st a) as [st1 [f|e]]; [|discriminate].
    unfold advance in R. rewrite (next_step_unknown_mode _ _ _ _ _ _ _ _ _ M) in R.
    now destruct (value_at _ _ _).
  - intros [P U].
    destruct (prepare hash_str st a) as [st1 r] eqn:Hp.
    pose proof Hp as Hq. rewrite prepare_eq, P in Hq. cbv zeta in Hq.
    cbn [effective_list] in Hq. rewrite U in Hq.
    injection Hq as Hst <-. eexists _, _. split; [reflexivity|].
    split; [now rewrite <- Hst|].
    rewrite (range_iterator_advance _ _ _ _ Hp). unfold advance.
    rewrite (next_step_unknown_mode _ _ _ _ _ _ _ _ _ M). reflexivity.
Qed.

(** X4. When the parse of the custom text meets an infinity (before any
    NaN), the call raises [OverflowError] on every state: the handler only
    catches [ValueError].  The configuration has been recorded by then, but
    the index, the direction and the completion flag are left untouched. *)
Theorem infinity_in_custom_values_raises (st : State) (a : Args) :
  parse_custom_values (custom_values a) = ParseOverflowError ->
  snd (range_iterator hash_str st a) = Raised OverflowError
  /\ cursor_of (fst (range_iterator hash_str st a)) = cursor_of st
  /\ snapshot_is hash_str a (fst (range_iterator hash_str st a)).
Proof.
  intros P. pose proof (process_custom_values_overflow _ (end_ a) P) as Q.
  split; [|split].
  - unfold range_iterator. rewrite prepare_eq, Q. reflexivity.
  - unfold range_iterator. rewrite prepare_eq, Q. cbn [fst].
    apply detect_changes_cursor.
  - apply range_iterator_snapshot.
Qed.

(** *** The reset decision *)

(** X5. The reset flag is raised exactly when [reset_counter] is set, or
    the custom text, start, end, step or mode differs from the stored
    snapshot, or a list is supplied whose fingerprint differs from the
    stored one.  A call without a list never looks at the fingerprint. *)
Theorem reset_flag_iff (st : State) (a : Args) :
  fst (detect_changes hash_str st a) = true <->
  (reset_counter a = true
   \/ custom_values a <> prev_custom_values st
   \/ prev_start st <> Some (start a)
   \/ prev_end st <> Some (end_ a)
   \/ prev_step st <> Some (step a)
   \/ prev_mode st <> Some (mode a)
   \/ exists l, value_list a = Some l
                /\ prev_value_list_hash st <> Some (hash_str l)).
Proof.
  rewrite detect_changes_flag, !orb_true_iff, negb_true_iff,
    !differs_Z_true, differs_string_true, String.eqb_neq.
  split.
  - intros [[[[[[H|H]|H]|H]|H]|H]|H]; auto 10.
    destruct (value_list a) as [l|]; [|discriminate].
    apply differs_Z_true in H. right. right. right. right. right. right.
    eauto.
  - intros [H|[H|[H|[H|[H|[H|(l & E & H)]]]]]]; auto 10.
    right. rewrite E. now apply differs_Z_true.
Qed.

(** X6. While [reset_counter] stays set the cursor never gets past its
    first step: every call of a run returns what the first call on a fresh
    instance returns. *)
Theorem reset_counter_pins_the_cursor (st : State) (a : Args) (n : nat) :
  reset_counter a = true ->
  snd (run hash_str st (repeat a n))
  = repeat (snd (range_iterator hash_str init_state a)) n.
Proof.
  intros R. revert st. induction n as [|n IH]; intros st; [reflexivity|].
  cbn [repeat run].
  assert (E : snd (range_iterator hash_str st a)
              = snd (range_iterator hash_str init_state a)).
  { rewrite !range_iterator_finish. apply finish_reset.
    - left. rewrite detect_changes_flag, R. reflexivity.
    - left. rewrite detect_changes_flag, R. reflexivity. }
  destruct (range_iterator hash_str st a) as [st1 o]. cbn [snd] in E.
  specialize (IH st1).
  destruct (run hash_str st1 (repeat a n)) as [st2 os]. cbn [snd] in *.
  now rewrite E, IH.
Qed.

(** X7. Taking the supplied list away does not reset the cursor.  After a
    call with a list [l] that committed the index [j], the same call
    without the list (and without custom list) raises no reset flag, keeps
    the fingerprint of [l] stored, and goes on from [j] over the numeric
    range, with no clamp to [start .. end]; supplying [l] again afterwards
    raises no reset flag either. *)
Theorem dropping_the_list_does_not_reset
  (st : State) (a : Args) (l : list pyval) (j : Z) :
  reset_counter a = false ->
  value_list a = Some l ->
  process_custom_values (custom_values a) (end_ a)
  = CustomDone None (end_ a) ->
  current_index (fst (range_iterator hash_str st a)) = Some j ->
  let st1 := fst (range_iterator hash_str st a) in
  let a' := with_value_list None a in
  detect_changes hash_str st1 a' = (false, st1)
  /\ prev_value_list_hash st1 = Some (hash_str l)
  /\ prepare hash_str st1 a' = (st1, inl (Frame.mk false [] (-1) (end_ a) j))
  /\ detect_changes hash_str st1 a = (false, st1).
Proof.
  intros R V P J st1 a'.
  pose proof (range_iterator_snapshot st a) as S. fold st1 in S.
  assert (S' : snapshot_is hash_str a' st1).
  { destruct S as (S1 & S2 & S3 & S4 & S5 & _).
    repeat split; try assumption. intros l' E. discriminate E. }
  pose proof (detect_changes_stable _ _ S') as D'.
  change (reset_counter a') with (reset_counter a) in D'. rewrite R in D'.
  pose proof (detect_changes_stable _ _ S) as D. rewrite R in D.
  split; [exact D'|]. split; [|split; [|exact D]].
  - destruct S as (_ & _ & _ & _ & _ & S6). now apply S6.
  - rewrite prepare_eq, D'. cbv zeta.
    change (custom_values a') with (custom_values a).
    change (end_ a') with (end_ a). rewrite P.
    change (value_list a') with (@None (list pyval)).
    cbn [effective_list using_list_of list_of fst snd].
    unfold init_or_reset. fold st1 in J. rewrite J. cbn [fst snd].
    unfold clamp_to_list. cbn [andb].
    now rewrite (set_current_index_same _ _ J).
Qed.

(** *** Runs in closed form *)

Lemma snapshot_is_of (a : Args) (s t : State) :
  snapshot_of s = snapshot_of t ->
  snapshot_is hash_str a t -> snapshot_is hash_str a s.
Proof.
  unfold snapshot_of, snapshot_is. intros [= E1 E2 E3 E4 E5 E6].
  now rewrite E1, E2, E3, E4, E5, E6.
Qed.

Lemma state_after_S (st : State) (a : Args) (k : nat) :
  state_after hash_str st a (S k)
  = state_after hash_str (fst (range_iterator hash_str st a)) a k.
Proof.
  unfold state_after. cbn [repeat run].
  destruct (range_iterator hash_str st a) as [st1 o]. cbn [fst].
  destruct (run hash_str st1 (repeat a k)) as [st2 os]. reflexivity.
Qed.

Lemma outcome_after_S (st : State) (a : Args) (k : nat) :
  outcome_after hash_str st a (S k)
  = outcome_after hash_str (fst (range_iterator hash_str st a)) a k.
Proof.
  unfold outcome_after. now rewrite state_after_S.
Qed.

Lemma ready_init_state (a : Args) : ready hash_str a init_state (start a) 1.
Proof. right. repeat split. Qed.

(** One call from a ready state, given what the step does at the index
    held. *)
Lemma ready_call (a : Args) (cl : option (list pyval)) (e' : Z)
  (st : State) (i0 d j d' : Z) (b : bool) (c n : pyval) :
  reset_counter a = false ->
  process_custom_values (custom_values a) (end_ a) = CustomDone cl e' ->
  ready hash_str a st i0 d ->
  let vl := effective_list cl (value_list a) in
  let ul := using_list_of vl in
  let l := list_of vl in
  let le := PyList.len l - 1 in
  let i := clamp_to_list ul le i0 in
  value_at ul l i = Some c ->
  value_at ul l j = Some n ->
  (forall st1, direction st1 = d ->
     exists s', next_step st1 (mode a) ul l le (start a) e' (step a) i
                = Some (j, s')
                /\ direction s' = d' /\ cycle_completed s' = b) ->
  exists st2,
    range_iterator hash_str st a = (st2, Returned c n b)
    /\ ready hash_str a st2 j d'.
Proof.
  intros R P Hr vl ul l le i Hc Hn Hstep.
  assert (Q : exists st1,
             prepare hash_str st a = (st1, inl (Frame.mk ul l le e' i))
             /\ direction st1 = d /\ snapshot_is hash_str a st1).
  { rewrite prepare_eq, P. cbv zeta. fold vl ul l le.
    destruct Hr as [(Hi & Hd & Hs) | (Hi & -> & ->)].
    - rewrite (detect_changes_stable _ _ Hs), R. cbn [fst snd].
      unfold init_or_reset. rewrite Hi. cbn [fst snd]. fold i.
      eexists. split; [reflexivity|]. split; [exact Hd|exact Hs].
    - pose proof (detect_changes_cursor st a) as C.
      apply cursor_of_eq in C. destruct C as (Ci & _ & _).
      rewrite Hi in Ci.
      rewrite (init_or_reset_fresh _ _ _ (or_intror Ci)). cbn [fst snd].
      fold i. eexists. split; [reflexivity|]. split; [reflexivity|].
      exact (detect_changes_snapshot st a). }
  destruct Q as (st1 & Hp & Hd & Hs).
  destruct (Hstep st1 Hd) as (s' & N & Hd' & Hb).
  rewrite (range_iterator_advance _ _ _ _ Hp).
  pose proof (advance_commit st1 s' a (Frame.mk ul l le e' i) c j Hc N)
    as [E1 E2].
  cbn [Frame.using_list Frame.value_list] in E2. rewrite Hn, Hb in E2.
  exists (set_current_index (Some j) s'). split.
  - rewrite <- E1, <- E2. now destruct (advance st1 a _).
  - left. split; [reflexivity|]. split; [exact Hd'|].
    apply (snapshot_is_of a _ st1); [|exact Hs].
    apply next_step_snapshot in N. rewrite <- N. now destruct s'.
Qed.

Lemma range_stops_facts (s e st r : Z) :
  s <= e -> 1 <= st ->
  0 <= r < (e - s) / st + 1 ->
  (r = (e - s) / st ->
     e < s + st * r + st /\ (r + 1) mod ((e - s) / st + 1) = 0)
  /\ (r < (e - s) / st ->
     s + st * r + st <= e /\ (r + 1) mod ((e - s) / st + 1) = r + 1).
Proof.
  intros Hse Hst Hr.
  assert (Hq : 0 <= (e - s) / st) by (apply Z.div_pos; lia).
  pose proof (Z.mul_div_le (e - s) st ltac:(lia)) as H1.
  pose proof (Z.mul_succ_div_gt (e - s) st ltac:(lia)) as H2.
  split.
  - intros ->. split; [nia|]. apply Z_mod_same_full.
  - intros H. split; [nia|]. apply Z.mod_small. lia.
Qed.

Lemma range_cycle_call (a : Args) (st : State) (r : Z) :
  reset_counter a = false ->
  uses_range a ->
  mode a = "cycle"%string ->
  start a <= end_ a ->
  1 <= step a ->
  0 <= r < range_stops a ->
  ready hash_str a st (start a + step a * r) 1 ->
  exists st2,
    range_iterator hash_str st a
    = (st2, Returned (PInt (start a + step a * r))
                     (PInt (start a + step a * ((r + 1) mod range_stops a)))
                     (r =? range_stops a - 1))
    /\ ready hash_str a st2
         (start a + step a * ((r + 1) mod range_stops a)) 1.
Proof.
  intros R [P U] M Hse Hst Hr Hready. unfold range_stops in *.
  pose proof (ready_call a None (end_ a) st (start a + step a * r) 1
                (start a + step a * ((r + 1) mod ((end_ a - start a) / step a + 1)))
                1 (r =? (end_ a - start a) / step a + 1 - 1)
                (PInt (start a + step a * r))
                (PInt (start a + step a
                       * ((r + 1) mod ((end_ a - start a) / step a + 1))))
                R P Hready) as H.
  cbv zeta in H. cbn [effective_list] in H. rewrite U in H.
  unfold clamp_to_list, value_at in H. cbn [andb] in H.
  apply H; [reflexivity|reflexivity|]. clear H.
  intros st1 Hd. unfold next_step. rewrite M.
  change (("cycle" =? "cycle")%string) with true. cbv iota.
  rewrite Hd, Z.mul_1_r.
  destruct (range_stops_facts (start a) (end_ a) (step a) r Hse Hst Hr)
    as [F1 F2].
  destruct (Z.eq_dec r ((end_ a - start a) / step a)) as [E|E].
  - destruct (F1 E) as [G1 G2]. rewrite G2.
    destruct (Z.ltb_spec (end_ a) (start a + step a * r + step a)); [|lia].
    eexists. split; [f_equal; f_equal; lia|]. split; [exact Hd|].
    cbn [cycle_completed set_cycle_completed]. symmetry. apply Z.eqb_eq. lia.
  - destruct (F2 ltac:(lia)) as [G1 G2]. rewrite G2.
    destruct (Z.ltb_spec (end_ a) (start a + step a * r + step a)); [lia|].
    eexists. split; [f_equal; f_equal; lia|]. split; [exact Hd|].
    cbn [cycle_completed set_cycle_completed]. symmetry. apply Z.eqb_neq. lia.
Qed.

Lemma range_cycle_from (a : Args) (k : nat) :
  reset_counter a = false ->
  uses_range a ->
  mode a = "cycle"%string ->
  start a <= end_ a ->
  1 <= step a ->
  forall st r,
    0 <= r < range_stops a ->
    ready hash_str a st (start a + step a * r) 1 ->
    outcome_after hash_str st a k
    = Returned
        (PInt (start a + step a * ((r + Z.of_nat k) mod range_stops a)))
        (PInt (start a + step a * ((r + Z.of_nat k + 1) mod range_stops a)))
        ((r + Z.of_nat k) mod range_stops a =? range_stops a - 1).
Proof.
  intros R Ur M Hse Hst. induction k as [|k IH]; intros st r Hr Hready.
  - destruct (range_cycle_call a st r R Ur M Hse Hst Hr Hready)
      as (st2 & E & _).
    unfold outcome_after, state_after. cbn [repeat run fst]. rewrite E.
    cbn [snd]. rewrite Z.add_0_r, (Z.mod_small r) by lia. reflexivity.
  - destruct (range_cycle_call a st r R Ur M Hse Hst Hr Hready)
      as (st2 & E & Hready2).
    rewrite outcome_after_S, E. cbn [fst].
    assert (Hp : 0 < range_stops a) by lia.
    rewrite (IH st2 ((r + 1) mod range_stops a)
               (Z.mod_pos_bound _ _ Hp) Hready2).
    assert (E1 : ((r + 1) mod range_stops a + Z.of_nat k) mod range_stops a
                 = (r + Z.of_nat (S k)) mod range_stops a).
    { rewrite Zplus_mod_idemp_l. f_equal. lia. }
    assert (E2 : ((r + 1) mod range_stops a + Z.of_nat k + 1)
                   mod range_stops a
                 = (r + Z.of_nat (S k) + 1) mod range_stops a).
    { rewrite <- Z.add_assoc, Zplus_mod_idemp_l. f_equal. lia. }
    now rewrite E1, E2.
Qed.

(** X13. Cycling over the numeric range in closed form.  With no list in
    use, start <= end and step >= 1, the range has p = (end - start) / step
    + 1 stops; the call after k calls on a fresh instance returns
    start + step * (k mod p) and start + step * ((k + 1) mod p), and its
    completion flag is true exactly when k mod p = p - 1.  After the last
    stop the index jumps to start; the overshoot is not carried over. *)
Theorem range_cycle_closed_form (a : Args) (k : nat) :
  reset_counter a = false ->
  uses_range a ->
  mode a = "cycle"%string ->
  start a <= end_ a ->
  1 <= step a ->
  outcome_after hash_str init_state a k
  = Returned
      (PInt (start a + step a * (Z.of_nat k mod range_stops a)))
      (PInt (start a + step a * ((Z.of_nat k + 1) mod range_stops a)))
      (Z.of_nat k mod range_stops a =? range_stops a - 1).
Proof.
  intros R Ur M Hse Hst.
  assert (Hq : 0 <= (end_ a - start a) / step a) by (apply Z.div_pos; lia).
  assert (H0 : 0 <= 0 < range_stops a) by (unfold range_stops; lia).
  assert (Hready : ready hash_str a init_state (start a + step a * 0) 1).
  { rewrite Z.mul_0_r, Z.add_0_r. apply ready_init_state. }
  exact (range_cycle_from a k R Ur M Hse Hst init_state 0 H0 Hready).
Qed.

Lemma uses_list_frame (a : Args) (l : list pyval) :
  uses_list a l ->
  exists cl e',
    process_custom_values (custom_values a) (end_ a) = CustomDone cl e'
    /\ using_list_of (effective_list cl (value_list a)) = true
    /\ list_of (effective_list cl (value_list a)) = l
    /\ 0 < PyList.len l.
Proof.
  intros (N & cl & e' & P & E). exists cl, e'. rewrite E.
  assert (0 < PyList.len l).
  { unfold PyList.len. destruct l; [congruence|simpl; lia]. }
  repeat split; try assumption. now apply Z.ltb_lt.
Qed.

Lemma list_cycle_call (a : Args) (l : list pyval) (st : State) (I : Z) :
  reset_counter a = false ->
  uses_list a l ->
  mode a = "cycle"%string ->
  0 <= step a ->
  0 <= I < PyList.len l ->
  (exists i0, ready hash_str a st i0 1
              /\ clamp_to_list true (PyList.len l - 1) i0 = I) ->
  exists st2 cur nxt,
    PyList.index l I = Some cur
    /\ PyList.index l ((I + step a) mod PyList.len l) = Some nxt
    /\ range_iterator hash_str st a
       = (st2, Returned cur nxt (PyList.len l - 1 <? I + step a))
    /\ ready hash_str a st2 ((I + step a) mod PyList.len l) 1.
Proof.
  intros R Ul M Hst HI (i0 & Hready & Hc).
  destruct (uses_list_frame a l Ul) as (cl & e' & P & U & L & Hn).
  assert (HJ : 0 <= (I + step a) mod PyList.len l < PyList.len l)
    by (apply Z.mod_pos_bound; lia).
  destruct (index_in_range l I HI) as [cur Hcur].
  destruct (index_in_range l _ HJ) as [nxt Hnxt].
  pose proof (ready_call a cl e' st i0 1 ((I + step a) mod PyList.len l) 1
                (PyList.len l - 1 <? I + step a) cur nxt R P Hready) as H.
  cbv zeta in H. rewrite U, L, Hc in H. unfold value_at in H.
  destruct (H Hcur Hnxt) as (st2 & E & Hr2).
  - intros st1 Hd. unfold next_step. rewrite M.
    change (("cycle" =? "cycle")%string) with true. cbv iota.
    rewrite Hd, Z.mul_1_r.
    destruct (Z.ltb_spec (PyList.len l - 1) (I + step a)).
    + eexists. split; [reflexivity|]. split; [exact Hd|reflexivity].
    + eexists. split.
      { rewrite Z.mod_small by lia. reflexivity. }
      split; [exact Hd|reflexivity].
  - exists st2, cur, nxt. auto.
Qed.

Lemma list_cycle_from (a : Args) (l : list pyval) (k : nat) :
  reset_counter a = false ->
  uses_list a l ->
  mode a = "cycle"%string ->
  0 <= step a ->
  forall st I,
    0 <= I < PyList.len l ->
    (exists i0, ready hash_str a st i0 1
                /\ clamp_to_list true (PyList.len l - 1) i0 = I) ->
    exists cur nxt,
      PyList.index l ((I + Z.of_nat k * step a) mod PyList.len l) = Some cur
      /\ PyList.index l ((I + (Z.of_nat k + 1) * step a) mod PyList.len l)
         = Some nxt
      /\ outcome_after hash_str st a k
         = Returned cur nxt
             (PyList.len l - 1
              <? (I + Z.of_nat k * step a) mod PyList.len l + step a).
Proof.
  intros R Ul M Hst. induction k as [|k IH]; intros st I HI Hinv.
  - destruct (list_cycle_call a l st I R Ul M Hst HI Hinv)
      as (st2 & cur & nxt & Hc & Hn & E & _).
    exists cur, nxt.
    change (Z.of_nat 0) with 0. rewrite Z.mul_0_l, Z.add_0_r, Z.add_0_l,
      Z.mul_1_l, (Z.mod_small I) by lia.
    repeat split; try assumption.
    unfold outcome_after, state_after. cbn [repeat run fst]. now rewrite E.
  - destruct (list_cycle_call a l st I R Ul M Hst HI Hinv)
      as (st2 & cur & nxt & Hc & Hn & E & Hr2).
    assert (Hlen : 0 < PyList.len l) by lia.
    pose proof (Z.mod_pos_bound (I + step a) _ Hlen) as HJ.
    destruct (IH st2 ((I + step a) mod PyList.len l) HJ) as
      (cur' & nxt' & Hc' & Hn' & E').
    { exists ((I + step a) mod PyList.len l). split; [exact Hr2|].
      unfold clamp_to_list. cbn [andb].
      destruct (Z.ltb_spec (PyList.len l - 1)
                  ((I + step a) mod PyList.len l)); [lia|reflexivity]. }
    assert (E1 : ((I + step a) mod PyList.len l + Z.of_nat k * step a)
                   mod PyList.len l
                 = (I + Z.of_nat (S k) * step a) mod PyList.len l).
    { rewrite Zplus_mod_idemp_l. f_equal. lia. }
    assert (E2 : ((I + step a) mod PyList.len l
                  + (Z.of_nat k + 1) * step a) mod PyList.len l
                 = (I + (Z.of_nat (S k) + 1) * step a) mod PyList.len l).
    { rewrite Zplus_mod_idemp_l. f_equal. lia. }
    rewrite E1 in Hc', E'. rewrite E2 in Hn'.
    exists cur', nxt'. repeat split; try assumption.
    rewrite outcome_after_S, E. exact E'.
Qed.

(** X14. Cycling over a list in closed form.  With a list [l] of length n
    in use, start >= 0 and step >= 0, the call after k calls on a fresh
    instance reads the list at (min(start, n-1) + k * step) mod n for its
    current value and one step further for its next value; the completion
    flag is true exactly when the step leaves the list.  Unlike over the
    numeric range, the overshoot is carried around the list. *)
Theorem list_cycle_closed_form (a : Args) (l : list pyval) (k : nat) :
  reset_counter a = false ->
  uses_list a l ->
  mode a = "cycle"%string ->
  0 <= start a ->
  0 <= step a ->
  exists cur nxt,
    PyList.index l (list_cycle_index a (PyList.len l) (Z.of_nat k)) = Some cur
    /\ PyList.index l (list_cycle_index a (PyList.len l) (Z.of_nat k + 1))
       = Some nxt
    /\ outcome_after hash_str init_state a k
       = Returned cur nxt
           (PyList.len l - 1
            <? list_cycle_index a (PyList.len l) (Z.of_nat k) + step a).
Proof.
  intros R Ul M Hs Hst. unfold list_cycle_index.
  destruct (uses_list_frame a l Ul) as (_ & _ & _ & _ & _ & Hn).
  apply (list_cycle_from a l k R Ul M Hst init_state
           (Z.min (start a) (PyList.len l - 1))); [lia|].
  exists (start a). split; [apply ready_init_state|].
  unfold clamp_to_list. cbn [andb].
  destruct (Z.ltb_spec (PyList.len l - 1) (start a)); lia.
Qed.

Lemma once_call (a : Args) (cl : option (list pyval)) (e' : Z)
  (st : State) (I d : Z) :
  reset_counter a = false ->
  process_custom_values (custom_values a) (end_ a) = CustomDone cl e' ->
  mode a = "once"%string ->
  0 <= step a ->
  let vl := effective_list cl (value_list a) in
  let ul := using_list_of vl in
  let l := list_of vl in
  let le := PyList.len l - 1 in
  let U := if ul then le else e' in
  let L := if ul then 0 else start a in
  L <= I <= U ->
  (exists i0, ready hash_str a st i0 d /\ clamp_to_list ul le i0 = I) ->
  exists st2 cur nxt,
    value_at ul l I = Some cur
    /\ value_at ul l (Z.min (I + step a) U) = Some nxt
    /\ range_iterator hash_str st a
       = (st2, Returned cur nxt (U <? I + step a))
    /\ ready hash_str a st2 (Z.min (I + step a) U) d.
Proof.
  intros R P M Hst vl ul l le U L HI (i0 & Hready & Hc).
  assert (V : forall j, L <= j <= U -> exists v, value_at ul l j = Some v).
  { intros j Hj. unfold value_at. subst U L.
    destruct ul; [|eauto]. apply index_in_range. unfold le in Hj. lia. }
  destruct (V I HI) as [cur Hcur].
  destruct (V (Z.min (I + step a) U) ltac:(lia)) as [nxt Hnxt].
  pose proof (ready_call a cl e' st i0 d (Z.min (I + step a) U) d
                (U <? I + step a) cur nxt R P Hready) as H.
  cbv zeta in H. fold vl ul l le in H. rewrite Hc in H.
  destruct (H Hcur Hnxt) as (st2 & E & Hr2).
  - intros st1 Hd. unfold next_step. rewrite M.
    change (("once" =? "cycle")%string) with false.
    change (("once" =? "bounce")%string) with false.
    change (("once" =? "once")%string) with true. cbv iota.
    subst U L. destruct ul.
    + destruct (Z.ltb_spec le (I + step a)); eexists;
        (split; [f_equal; f_equal; lia|]); (split; [exact Hd|reflexivity]).
    + destruct (Z.ltb_spec e' (I + step a)); eexists;
        (split; [f_equal; f_equal; lia|]); (split; [exact Hd|reflexivity]).
  - exists st2, cur, nxt. auto.
Qed.

Lemma once_from (a : Args) (cl : option (list pyval)) (e' : Z) (d : Z)
  (k : nat) :
  reset_counter a = false ->
  process_custom_values (custom_values a) (end_ a) = CustomDone cl e' ->
  mode a = "once"%string ->
  0 <= step a ->
  let vl := effective_list cl (value_list a) in
  let ul := using_list_of vl in
  let l := list_of vl in
  let le := PyList.len l - 1 in
  let U := if ul then le else e' in
  let L := if ul then 0 else start a in
  forall st I,
    L <= I <= U ->
    (exists i0, ready hash_str a st i0 d /\ clamp_to_list ul le i0 = I) ->
    exists cur nxt,
      value_at ul l (Z.min (I + Z.of_nat k * step a) U) = Some cur
      /\ value_at ul l (Z.min (I + (Z.of_nat k + 1) * step a) U) = Some nxt
      /\ outcome_after hash_str st a k
         = Returned cur nxt (U <? Z.min (I + Z.of_nat k * step a) U + step a).
Proof.
  intros R P M Hst vl ul l le U L.
  induction k as [|k IH]; intros st I HI Hinv.
  - destruct (once_call a cl e' st I d R P M Hst HI Hinv)
      as (st2 & cur & nxt & Hc & Hn & E & _).
    fold vl ul l le U in Hc, Hn, E.
    exists cur, nxt. change (Z.of_nat 0) with 0.
    rewrite Z.mul_0_l, Z.add_0_r, Z.add_0_l, Z.mul_1_l, (Z.min_l I U) by lia.
    repeat split; try assumption.
    unfold outcome_after, state_after. cbn [repeat run fst]. now rewrite E.
  - destruct (once_call a cl e' st I d R P M Hst HI Hinv)
      as (st2 & cur & nxt & Hc & Hn & E & Hr2).
    fold vl ul l le U in Hc, Hn, E, Hr2.
    destruct (IH st2 (Z.min (I + step a) U) ltac:(subst L; lia))
      as (cur' & nxt' & Hc' & Hn' & E').
    { exists (Z.min (I + step a) U). split; [exact Hr2|].
      unfold clamp_to_list. subst U. destruct ul; cbn [andb]; [|reflexivity].
      destruct (Z.ltb_spec le (Z.min (I + step a) le)); [lia|reflexivity]. }
    assert (E1 : Z.min (Z.min (I + step a) U + Z.of_nat k * step a) U
                 = Z.min (I + Z.of_nat (S k) * step a) U) by nia.
    assert (E2 : Z.min (Z.min (I + step a) U + (Z.of_nat k + 1) * step a) U
                 = Z.min (I + (Z.of_nat (S k) + 1) * step a) U) by nia.
    rewrite E1 in Hc', E'. rewrite E2 in Hn'.
    exists cur', nxt'. repeat split; try assumption.
    rewrite outcome_after_S, E. exact E'.
Qed.

(** X15. Once mode in closed form.  Under well-formed arguments with
    bounds L..U, the call after k calls on a fresh instance holds the index
    min(min(start, U) + k * step, U); it returns the value there and the
    value one step further (stopped at U), and its completion flag is true
    exactly when the step would pass U.  The values are the indices when
    no list is in use, and the elements of the list otherwise.  So the
    index never decreases, and once it is U every further call returns the
    same pair. *)
Theorem once_closed_form (a : Args) (L U : Z) (k : nat) :
  well_formed a L U ->
  mode a = "once"%string ->
  reset_counter a = false ->
  exists cur nxt,
    outcome_after hash_str init_state a k
    = Returned cur nxt (U <? once_index a U (Z.of_nat k) + step a)
    /\ (uses_range a ->
        cur = PInt (once_index a U (Z.of_nat k))
        /\ nxt = PInt (once_index a U (Z.of_nat k + 1)))
    /\ (forall l, uses_list a l ->
        PyList.index l (once_index a U (Z.of_nat k)) = Some cur
        /\ PyList.index l (once_index a U (Z.of_nat k + 1)) = Some nxt).
Proof.
  intros (B & HLU & Hs & Hst & _) M R. unfold once_index.
  unfold bounds in B.
  destruct (process_custom_values (custom_values a) (end_ a))
    as [cl e'|] eqn:P; [|discriminate].
  cbv zeta in B.
  pose proof (once_from a cl e' 1 k R P M Hst init_state
                (Z.min (start a) U)) as H.
  cbv zeta in H.
  set (vl := effective_list cl (value_list a)) in *.
  destruct (using_list_of vl) eqn:Ul; injection B as BL BU.
  - destruct H as (cur & nxt & Hc & Hn & E).
    + lia.
    + exists (start a). split; [apply ready_init_state|].
      unfold clamp_to_list. cbn [andb]. rewrite BU.
      destruct (Z.ltb_spec U (start a)); lia.
    + rewrite BU in Hc, Hn, E. unfold value_at in Hc, Hn.
      exists cur, nxt. split; [exact E|]. split.
      * intros [P' U']. rewrite P in P'. injection P' as -> _.
        unfold vl in Ul. cbn [effective_list] in Ul. congruence.
      * intros l' (cl' & e'' & P' & _ & L' & _)%uses_list_frame.
        rewrite P in P'. injection P' as <- <-. fold vl in L'.
        rewrite <- L'. auto.
  - destruct H as (cur & nxt & Hc & Hn & E).
    + lia.
    + exists (start a). split; [apply ready_init_state|].
      unfold clamp_to_list. cbn [andb]. lia.
    + rewrite BU in Hc, Hn, E. unfold value_at in Hc, Hn.
      injection Hc as <-. injection Hn as <-.
      eexists _, _. split; [exact E|]. split; [auto|].
      intros l' (cl' & e'' & P' & U' & _)%uses_list_frame.
      rewrite P in P'. injection P' as <- <-. fold vl in U'. congruence.
Qed.

Lemma succ_mod_cases (n r : Z) :
  0 <= r < n ->
  (r + 1 < n /\ (r + 1) mod n = r + 1) \/ (r + 1 = n /\ (r + 1) mod n = 0).
Proof.
  intros H. destruct (Z.eq_dec (r + 1) n) as [E|E].
  - right. split; [exact E|]. rewrite E. apply Z_mod_same_full.
  - left. split; [lia|]. apply Z.mod_small. lia.
Qed.

(** The bounce step on the triangle wave: position [r] of the period and
    the direction [d] held there give position [r + 1] and its direction;
    the low rebound is the step that leaves position 0 downwards. *)
Lemma triangle_step (L U s m r d : Z) :
  1 <= s -> 1 <= m -> U - L = m * s ->
  0 <= r < 2 * m ->
  d = bounce_direction m r \/ (r = 0 /\ d = 1) ->
  let I := L + s * triangle m r in
  let cand := I + s * d in
  let J := L + s * triangle m (r + 1) in
  (U < cand ->
     J = U - (cand - U) /\ bounce_direction m (r + 1) = -1
     /\ (r =? 0) && (d =? -1) = false)
  /\ (cand <= U -> cand < L ->
     J = L + (L - cand) /\ bounce_direction m (r + 1) = 1
     /\ (r =? 0) && (d =? -1) = true)
  /\ (cand <= U -> L <= cand ->
     J = cand /\ bounce_direction m (r + 1) = d
     /\ (r =? 0) && (d =? -1) = false).
Proof.
  intros Hs Hm HU Hr Hd. unfold triangle, bounce_direction in *.
  rewrite (Z.mod_small r) in * by lia.
  cbv zeta.
  destruct (succ_mod_cases (2 * m) r Hr) as [[H1 ->] | [H1 ->]];
    destruct (Z.leb_spec 1 r), (Z.leb_spec r m);
    cbn [andb] in Hd;
    destruct Hd as [-> | [-> ->]]; try lia;
    repeat match goal with
      | |- context [?x <=? ?y] => destruct (Z.leb_spec x y)
      | |- context [?x =? ?y] => destruct (Z.eqb_spec x y)
      end; cbn [andb]; try lia;
    repeat split; intros; try reflexivity; try nia.
Qed.

Lemma triangle_bounds (m k : Z) : 1 <= m -> 0 <= triangle m k <= m.
Proof.
  intros Hm. unfold triangle.
  pose proof (Z.mod_pos_bound k (2 * m) ltac:(lia)).
  cbv zeta. destruct (Z.leb_spec (k mod (2 * m)) m); lia.
Qed.

Lemma triangle_mod (m k : Z) :
  triangle m (k mod (2 * m)) = triangle m k
  /\ triangle m (k mod (2 * m) + 1) = triangle m (k + 1)
  /\ bounce_direction m (k mod (2 * m)) = bounce_direction m k
  /\ bounce_direction m (k mod (2 * m) + 1) = bounce_direction m (k + 1).
Proof.
  unfold triangle, bounce_direction.
  now rewrite Zmod_mod, Zplus_mod_idemp_l.
Qed.

Lemma bounce_call (a : Args) (cl : option (list pyval)) (e' : Z)
  (st : State) (L U m K d : Z) :
  reset_counter a = false ->
  process_custom_values (custom_values a) (end_ a) = CustomDone cl e' ->
  mode a = "bounce"%string ->
  1 <= step a ->
  1 <= m ->
  U - L = m * step a ->
  let vl := effective_list cl (value_list a) in
  let ul := using_list_of vl in
  let l := list_of vl in
  let le := PyList.len l - 1 in
  (if ul then le else e') = U ->
  (if ul then 0 else start a) = L ->
  d = bounce_direction m K \/ (K mod (2 * m) = 0 /\ d = 1) ->
  (exists i0, ready hash_str a st i0 d
              /\ clamp_to_list ul le i0 = bounce_index a L m K) ->
  exists st2 cur nxt,
    value_at ul l (bounce_index a L m K) = Some cur
    /\ value_at ul l (bounce_index a L m (K + 1)) = Some nxt
    /\ range_iterator hash_str st a
       = (st2, Returned cur nxt ((K mod (2 * m) =? 0) && (d =? -1)))
    /\ ready hash_str a st2 (bounce_index a L m (K + 1))
             (bounce_direction m (K + 1)).
Proof.
  intros R P M Hs Hm HU vl ul l le EU EL Hd (i0 & Hready & Hc).
  unfold bounce_index in *.
  assert (V : forall k, exists v,
               value_at ul l (L + step a * triangle m k) = Some v).
  { intros k. pose proof (triangle_bounds m k Hm) as T.
    unfold value_at. destruct ul; [|eauto].
    apply index_in_range. unfold le in EU. nia. }
  destruct (V K) as [cur Hcur]. destruct (V (K + 1)) as [nxt Hnxt].
  pose proof (ready_call a cl e' st i0 d (L + step a * triangle m (K + 1))
                (bounce_direction m (K + 1))
                ((K mod (2 * m) =? 0) && (d =? -1)) cur nxt R P Hready) as H.
  cbv zeta in H. fold vl ul l le in H. rewrite Hc in H.
  destruct (H Hcur Hnxt) as (st2 & E & Hr2).
  - intros st1 Hd1.
    pose proof (next_step_bounce st1 ul l le (start a) e' (step a)
                  (L + step a * triangle m K)) as N.
    cbv zeta in N. rewrite <- M in N. rewrite EU, EL, Hd1 in N.
    destruct (triangle_mod m K) as (T1 & T2 & T3 & T4).
    pose proof (triangle_step L U (step a) m (K mod (2 * m)) d Hs Hm HU
                  (Z.mod_pos_bound K (2 * m) ltac:(lia))) as S.
    rewrite T3 in S. specialize (S ltac:(tauto)). cbv zeta in S.
    rewrite T1, T2, T4 in S. destruct S as (S1 & S2 & S3).
    destruct (Z.ltb_spec U (L + step a * triangle m K + step a * d)) as [C1|C1].
    + destruct (S1 C1) as (J & D & F). eexists. split; [rewrite N, J; reflexivity|].
      split; [now rewrite D|now rewrite F].
    + destruct (Z.ltb_spec (L + step a * triangle m K + step a * d) L)
        as [C2|C2].
      * destruct (S2 C1 C2) as (J & D & F).
        eexists. split; [rewrite N, J; reflexivity|].
        split; [now rewrite D|now rewrite F].
      * destruct (S3 C1 C2) as (J & D & F).
        eexists. split; [rewrite N, J; reflexivity|].
        split; [now rewrite D|now rewrite F].
  - exists st2, cur, nxt. auto.
Qed.

Lemma bounce_from (a : Args) (cl : option (list pyval)) (e' : Z)
  (L U m : Z) (k : nat) :
  reset_counter a = false ->
  process_custom_values (custom_values a) (end_ a) = CustomDone cl e' ->
  mode a = "bounce"%string ->
  1 <= step a ->
  1 <= m ->
  U - L = m * step a ->
  let vl := effective_list cl (value_list a) in
  let ul := using_list_of vl in
  let l := list_of vl in
  let le := PyList.len l - 1 in
  (if ul then le else e') = U ->
  (if ul then 0 else start a) = L ->
  forall st K,
    (exists i0, ready hash_str a st i0 (bounce_direction m K)
                /\ clamp_to_list ul le i0 = bounce_index a L m K) ->
    exists cur nxt,
      value_at ul l (bounce_index a L m (K + Z.of_nat k)) = Some cur
      /\ value_at ul l (bounce_index a L m (K + Z.of_nat k + 1)) = Some nxt
      /\ outcome_after hash_str st a k
         = Returned cur nxt ((K + Z.of_nat k) mod (2 * m) =? 0).
Proof.
  intros R P M Hs Hm HU vl ul l le EU EL.
  assert (F : forall K,
             (K mod (2 * m) =? 0) && (bounce_direction m K =? -1)
             = (K mod (2 * m) =? 0)).
  { intros K. unfold bounce_direction. cbv zeta.
    destruct (Z.eqb_spec (K mod (2 * m)) 0) as [->|]; reflexivity. }
  assert (C : forall K, clamp_to_list ul le (bounce_index a L m K)
                        = bounce_index a L m K).
  { intros K. unfold clamp_to_list, bounce_index.
    pose proof (triangle_bounds m K Hm). destruct ul; [|reflexivity].
    cbn [andb]. destruct (Z.ltb_spec le (L + step a * triangle m K));
      [nia|reflexivity]. }
  induction k as [|k IH]; intros st K Hinv.
  - destruct (bounce_call a cl e' st L U m K (bounce_direction m K)
                R P M Hs Hm HU EU EL (or_introl eq_refl) Hinv)
      as (st2 & cur & nxt & Hc & Hn & E & _).
    fold vl ul l le in Hc, Hn. rewrite F in E.
    exists cur, nxt. change (Z.of_nat 0) with 0. rewrite !Z.add_0_r.
    repeat split; try assumption.
    unfold outcome_after, state_after. cbn [repeat run fst]. now rewrite E.
  - destruct (bounce_call a cl e' st L U m K (bounce_direction m K)
                R P M Hs Hm HU EU EL (or_introl eq_refl) Hinv)
      as (st2 & cur & nxt & Hc & Hn & E & Hr2).
    destruct (IH st2 (K + 1)) as (cur' & nxt' & Hc' & Hn' & E').
    { exists (bounce_index a L m (K + 1)). split; [exact Hr2|apply C]. }
    replace (K + 1 + Z.of_nat k) with (K + Z.of_nat (S k)) in * by lia.
    exists cur', nxt'. repeat split; try assumption.
    rewrite outcome_after_S, E. exact E'.
Qed.

(** X16. Bounce mode in closed form.  Let the bounds be L..U, the run
    start at L (automatic when no list is in use) and the width U - L be m
    steps, m >= 1.  The index held after k calls on a fresh instance is
    L + step * t, where t follows the triangle wave 0, 1, ..., m, m-1, ...,
    1, 0, 1, ... of period 2 * m; the call returns the values at the index
    held and at the following one.  The completion flag is true exactly on
    the calls made after a whole number (at least one) of periods: the
    calls whose current value is the lower bound again.  It is false on
    the first call and at the upper bound. *)
Theorem bounce_closed_form (a : Args) (L U m : Z) (k : nat) :
  bounds a = Some (L, U) ->
  mode a = "bounce"%string ->
  reset_counter a = false ->
  1 <= step a ->
  1 <= m ->
  U - L = m * step a ->
  start a = L ->
  exists cur nxt,
    outcome_after hash_str init_state a k
    = Returned cur nxt
        ((0 <? Z.of_nat k) && (Z.of_nat k mod (2 * m) =? 0))
    /\ (uses_range a ->
        cur = PInt (bounce_index a L m (Z.of_nat k))
        /\ nxt = PInt (bounce_index a L m (Z.of_nat k + 1)))
    /\ (forall l, uses_list a l ->
        PyList.index l (bounce_index a L m (Z.of_nat k)) = Some cur
        /\ PyList.index l (bounce_index a L m (Z.of_nat k + 1)) = Some nxt).
Proof.
  intros B M R Hs Hm HU HL. unfold bounds in B.
  destruct (process_custom_values (custom_values a) (end_ a))
    as [cl e'|] eqn:P; [|discriminate].
  cbv zeta in B.
  set (vl := effective_list cl (value_list a)) in *.
  set (ul := using_list_of vl) in *.
  set (l := list_of vl) in *.
  set (le := PyList.len l - 1) in *.
  assert (EU : (if ul then le else e') = U) by (destruct ul; congruence).
  assert (EL : (if ul then 0 else start a) = L) by (destruct ul; congruence).
  assert (T0 : bounce_index a L m 0 = L).
  { unfold bounce_index, triangle. cbv zeta. rewrite Z.mod_0_l by lia.
    destruct (Z.leb_spec 0 m); lia. }
  assert (Q : exists cur nxt,
             value_at ul l (bounce_index a L m (Z.of_nat k)) = Some cur
             /\ value_at ul l (bounce_index a L m (Z.of_nat k + 1)) = Some nxt
             /\ outcome_after hash_str init_state a k
                = Returned cur nxt
                    ((0 <? Z.of_nat k) && (Z.of_nat k mod (2 * m) =? 0))).
  { destruct (bounce_call a cl e' init_state L U m 0 1 R P M Hs Hm HU EU EL)
      as (st2 & cur & nxt & Hc & Hn & E & Hr2).
    { right. split; [apply Z.mod_0_l; lia|reflexivity]. }
    { exists (start a). split; [apply ready_init_state|].
      rewrite T0, HL. unfold clamp_to_list. fold vl ul l le.
      destruct ul; cbn [andb]; [|reflexivity].
      destruct (Z.ltb_spec le L); [lia|reflexivity]. }
    fold vl ul l le in Hc, Hn.
    destruct k as [|k].
    - exists cur, nxt. repeat split; try assumption.
      unfold outcome_after, state_after. cbn [repeat run fst]. now rewrite E.
    - destruct (bounce_from a cl e' L U m k R P M Hs Hm HU EU EL st2 1)
        as (cur' & nxt' & Hc' & Hn' & E').
      { exists (bounce_index a L m 1). split; [exact Hr2|].
        unfold clamp_to_list, bounce_index. fold vl ul l le.
        pose proof (triangle_bounds m 1 Hm). destruct ul; [|reflexivity].
        cbn [andb]. destruct (Z.ltb_spec le (L + step a * triangle m 1));
          [nia|reflexivity]. }
      fold vl ul l le in Hc', Hn'.
      replace (1 + Z.of_nat k) with (Z.of_nat (S k)) in * by lia.
      exists cur', nxt'. repeat split; try assumption.
      rewrite outcome_after_S, E. cbn [fst]. rewrite E'.
      destruct (Z.ltb_spec 0 (Z.of_nat (S k))); [reflexivity|lia]. }
  destruct Q as (cur & nxt & Hc & Hn & E).
  exists cur, nxt. split; [exact E|]. unfold value_at in Hc, Hn. split.
  - intros [P' U']. rewrite P in P'. injection P' as -> _.
    unfold ul, vl in Hc, Hn. cbn [effective_list] in Hc, Hn.
    rewrite U' in Hc, Hn. split; congruence.
  - intros l' (cl' & e'' & P' & U' & L' & _)%uses_list_frame.
    rewrite P in P'. injection P' as <- <-. fold vl ul in U'.
    fold vl l in L'. rewrite U' in Hc, Hn. rewrite <- L'. auto.
Qed.

(** *** Further edge behaviour *)

(** X17. White space around the elements of the custom text does not
    matter to the parse: two texts whose elements agree once stripped give
    the same list, the same effective end or the same exception, and calls
    that differ in such texts alone return the same tuple when they take
    the same reset decision.  (The raw texts still differ for the change
    detection.) *)
Theorem surrounding_white_space_is_ignored (cv cv' : string) :
  map PyStr.strip (PyStr.split "," cv) = map PyStr.strip (PyStr.split "," cv') ->
  (forall e, process_custom_values cv e = process_custom_values cv' e)
  /\ (forall st a,
        custom_values a = cv ->
        fst (detect_changes hash_str st a)
        = fst (detect_changes hash_str st (with_custom_values cv' a)) ->
        snd (range_iterator hash_str st a)
        = snd (range_iterator hash_str st (with_custom_values cv' a))).
Proof.
  intros H.
  assert (P : forall e, process_custom_values cv e
                        = process_custom_values cv' e).
  { intros e. rewrite !process_by_parse. unfold parse_custom_values.
    now rewrite (floats_of_strip _ _ H). }
  split; [exact P|]. intros st a Ha Hb.
  apply same_decision_same_outcome; [exact Hb|]. intros b s.
  rewrite !finish_after_init.
  change (custom_values (with_custom_values cv' a)) with cv'.
  change (end_ (with_custom_values cv' a)) with (end_ a).
  rewrite Ha, <- (P (end_ a)). reflexivity.
Qed.

(** X18. A stored index below [-len] of the list in use wedges the
    cursor: with unchanged arguments every call raises [IndexError] when
    it reads the current value and leaves the state as it is, for any
    number of calls.  Only a reset gets the cursor out. *)
Theorem stored_index_below_list_wedges
  (st : State) (a : Args) (l : list pyval) (i : Z) (n : nat) :
  uses_list a l ->
  reset_counter a = false ->
  snapshot_is hash_str a st ->
  current_index st = Some i ->
  i < - PyList.len l ->
  run hash_str st (repeat a n) = (st, repeat (Raised IndexError) n).
Proof.
  intros Ul R S Hi Hlt.
  assert (E : range_iterator hash_str st a = (st, Raised IndexError)).
  { destruct (uses_list_frame a l Ul) as (cl & e' & P & U & L & Hn).
    unfold range_iterator.
    rewrite prepare_eq, (detect_changes_stable _ _ S), R, P. cbv zeta.
    cbn [fst snd]. rewrite U, L. unfold init_or_reset. rewrite Hi.
    cbn [fst snd]. unfold clamp_to_list. cbn [andb].
    destruct (Z.ltb_spec (PyList.len l - 1) i); [lia|].
    rewrite (set_current_index_same _ _ Hi). unfold advance.
    cbn [Frame.using_list Frame.value_list Frame.current_index value_at].
    now rewrite (index_below_list l i Hlt). }
  induction n as [|n IH]; [reflexivity|].
  cbn [repeat run]. now rewrite E, IH.
Qed.

Lemma overshoot_call (a : Args) (st : State) (K : Z) :
  reset_counter a = false ->
  uses_range a ->
  mode a = "bounce"%string ->
  start a <= end_ a ->
  end_ a - start a < step a ->
  0 <= K ->
  ready hash_str a st (overshoot_index a K) (if Z.even K then 1 else -1) ->
  exists st2,
    range_iterator hash_str st a
    = (st2, Returned (PInt (overshoot_index a K))
                     (PInt (overshoot_index a (K + 1))) (Z.odd K))
    /\ ready hash_str a st2 (overshoot_index a (K + 1))
             (if Z.even (K + 1) then 1 else -1).
Proof.
  intros R [P U] M Hse Hw HK Hready.
  pose proof (ready_call a None (end_ a) st (overshoot_index a K)
                (if Z.even K then 1 else -1) (overshoot_index a (K + 1))
                (if Z.even (K + 1) then 1 else -1) (Z.odd K)
                (PInt (overshoot_index a K))
                (PInt (overshoot_index a (K + 1))) R P Hready) as H.
  cbv zeta in H. cbn [effective_list] in H. rewrite U in H.
  unfold clamp_to_list, value_at in H. cbn [andb] in H.
  apply H; [reflexivity|reflexivity|]. clear H.
  intros st1 Hd.
  pose proof (next_step_bounce st1 false (list_of (value_list a))
                (PyList.len (list_of (value_list a)) - 1) (start a) (end_ a)
                (step a) (overshoot_index a K)) as N.
  cbv zeta in N. rewrite <- M in N. rewrite N, Hd. clear N.
  unfold overshoot_index. cbv zeta.
  rewrite Z.even_add, <- Z.negb_even. change (Z.even 1) with false.
  destruct (Z.even K) eqn:EK; cbn [Bool.eqb negb].
  - destruct (Z.ltb_spec (end_ a)
                (start a + K * (step a - (end_ a - start a)) + step a * 1));
      [|nia].
    eexists. split; [f_equal; f_equal; nia|]. split; reflexivity.
  - destruct (Z.ltb_spec (end_ a)
                (end_ a - K * (step a - (end_ a - start a)) + step a * -1));
      [nia|].
    destruct (Z.ltb_spec
                (end_ a - K * (step a - (end_ a - start a)) + step a * -1)
                (start a)); [|nia].
    eexists. split; [f_equal; f_equal; nia|]. split; reflexivity.
Qed.

Lemma overshoot_from (a : Args) (k : nat) :
  reset_counter a = false ->
  uses_range a ->
  mode a = "bounce"%string ->
  start a <= end_ a ->
  end_ a - start a < step a ->
  forall st K,
    0 <= K ->
    ready hash_str a st (overshoot_index a K) (if Z.even K then 1 else -1) ->
    outcome_after hash_str st a k
    = Returned (PInt (overshoot_index a (K + Z.of_nat k)))
               (PInt (overshoot_index a (K + Z.of_nat k + 1)))
               (Z.odd (K + Z.of_nat k)).
Proof.
  intros R Ur M Hse Hw. induction k as [|k IH]; intros st K HK Hready.
  - destruct (overshoot_call a st K R Ur M Hse Hw HK Hready) as (st2 & E & _).
    unfold outcome_after, state_after. cbn [repeat run fst]. rewrite E.
    change (Z.of_nat 0) with 0. now rewrite Z.add_0_r.
  - destruct (overshoot_call a st K R Ur M Hse Hw HK Hready)
      as (st2 & E & Hr2).
    rewrite outcome_after_S, E. cbn [fst].
    rewrite (IH st2 (K + 1) ltac:(lia) Hr2).
    replace (K + 1 + Z.of_nat k) with (K + Z.of_nat (S k)) by lia.
    reflexivity.
Qed.

(** X19. A bounce over the numeric range with a step wider than the range
    never settles.  With start <= end < start + step and delta = step -
    (end - start), the index held after k calls on a fresh instance is
    start + k * delta for even k and end - k * delta for odd k.  It moves
    away by delta with every call, and as soon as k * delta exceeds
    end - start it lies outside [start, end] and stays outside.  The calls
    return these indices as values, without an exception, and report a
    completed cycle on every second call. *)
Theorem wide_bounce_diverges (a : Args) (k : nat) :
  reset_counter a = false ->
  uses_range a ->
  mode a = "bounce"%string ->
  start a <= end_ a ->
  end_ a - start a < step a ->
  outcome_after hash_str init_state a k
  = Returned (PInt (overshoot_index a (Z.of_nat k)))
             (PInt (overshoot_index a (Z.of_nat k + 1)))
             (Z.odd (Z.of_nat k))
  /\ (end_ a - start a < Z.of_nat k * (step a - (end_ a - start a)) ->
      ~ (start a <= overshoot_index a (Z.of_nat k) <= end_ a)).
Proof.
  intros R Ur M Hse Hw. split.
  - assert (Hready : ready hash_str a init_state (overshoot_index a 0) 1).
    { unfold overshoot_index. cbv zeta. change (Z.even 0) with true.
      cbv iota. rewrite Z.mul_0_l, Z.add_0_r. apply ready_init_state. }
    exact (overshoot_from a k R Ur M Hse Hw init_state 0 ltac:(lia) Hready).
  - unfold overshoot_index. cbv zeta. intros Hk.
    destruct (Z.even (Z.of_nat k)); lia.
Qed.

Lemma start_above_end_cycle_call (a : Args) (st : State) :
  reset_counter a = false ->
  uses_range a ->
  mode a = "cycle"%string ->
  end_ a < start a ->
  0 <= step a ->
  ready hash_str a st (start a) 1 ->
  exists st2,
    range_iterator hash_str st a
    = (st2, Returned (PInt (start a)) (PInt (start a)) true)
    /\ ready hash_str a st2 (start a) 1.
Proof.
  intros R [P U] M Hes Hst Hready.
  pose proof (ready_call a None (end_ a) st (start a) 1 (start a) 1 true
                (PInt (start a)) (PInt (start a)) R P Hready) as H.
  cbv zeta in H. cbn [effective_list] in H. rewrite U in H.
  unfold clamp_to_list, value_at in H. cbn [andb] in H.
  apply H; [reflexivity|reflexivity|]. clear H.
  intros st1 Hd. unfold next_step. rewrite M.
  change (("cycle" =? "cycle")%string) with true. cbv iota.
  rewrite Hd, Z.mul_1_r.
  destruct (Z.ltb_spec (end_ a) (start a + step a)); [|lia].
  eexists. split; [reflexivity|]. split; [exact Hd|reflexivity].
Qed.

Lemma start_above_end_once_call (a : Args) (st : State) (i d : Z) :
  reset_counter a = false ->
  uses_range a ->
  mode a = "once"%string ->
  end_ a < i + step a ->
  ready hash_str a st i d ->
  exists st2,
    range_iterator hash_str st a
    = (st2, Returned (PInt i) (PInt (end_ a)) true)
    /\ ready hash_str a st2 (end_ a) d.
Proof.
  intros R [P U] M Hes Hready.
  pose proof (ready_call a None (end_ a) st i d (end_ a) d true
                (PInt i) (PInt (end_ a)) R P Hready) as H.
  cbv zeta in H. cbn [effective_list] in H. rewrite U in H.
  unfold clamp_to_list, value_at in H. cbn [andb] in H.
  apply H; [reflexivity|reflexivity|]. clear H.
  intros st1 Hd. unfold next_step. rewrite M.
  change (("once" =? "cycle")%string) with false.
  change (("once" =? "bounce")%string) with false.
  change (("once" =? "once")%string) with true. cbv iota.
  destruct (Z.ltb_spec (end_ a) (i + step a)); [|lia].
  eexists. split; [reflexivity|]. split; [exact Hd|reflexivity].
Qed.

(** X20. With start above end and no list in use nothing is checked and
    nothing fails.  In cycle mode every call on a fresh instance returns
    (start, start, true): the cursor stays at start.  In once mode, with
    step >= 1, the first call returns (start, end, true) and every later
    call (end, end, true): the index jumps down to end. *)
Theorem start_above_end (a : Args) (k : nat) :
  reset_counter a = false ->
  uses_range a ->
  end_ a < start a ->
  (mode a = "cycle"%string -> 0 <= step a ->
   outcome_after hash_str init_state a k
   = Returned (PInt (start a)) (PInt (start a)) true)
  /\ (mode a = "once"%string -> 1 <= step a ->
      outcome_after hash_str init_state a k
      = Returned (PInt (match k with O => start a | S _ => end_ a end))
                 (PInt (end_ a)) true).
Proof.
  intros R Ur Hes. split.
  - intros M Hst.
    assert (G : forall st, ready hash_str a st (start a) 1 ->
                outcome_after hash_str st a k
                = Returned (PInt (start a)) (PInt (start a)) true).
    { induction k as [|k IH]; intros st Hready;
        destruct (start_above_end_cycle_call a st R Ur M Hes Hst Hready)
          as (st2 & E & Hr2).
      - unfold outcome_after, state_after. cbn [repeat run fst].
        now rewrite E.
      - rewrite outcome_after_S, E. now apply IH. }
    apply G, ready_init_state.
  - intros M Hst.
    assert (G : forall n st d, ready hash_str a st (end_ a) d ->
                outcome_after hash_str st a n
                = Returned (PInt (end_ a)) (PInt (end_ a)) true).
    { induction n as [|n IH]; intros st d Hready;
        destruct (start_above_end_once_call a st (end_ a) d R Ur M
                    ltac:(lia) Hready) as (st2 & E & Hr2).
      - unfold outcome_after, state_after. cbn [repeat run fst].
        now rewrite E.
      - rewrite outcome_after_S, E. now apply (IH st2 d). }
    destruct (start_above_end_once_call a init_state (start a) 1 R Ur M
                ltac:(lia) (ready_init_state a)) as (st2 & E & Hr2).
    destruct k as [|k].
    + unfold outcome_after, state_after. cbn [repeat run fst]. now rewrite E.
    + rewrite outcome_after_S, E. now apply (G k st2 1).
Qed.

End Properties.

(** ** Closed instances *)

(** A rebound from the upper bound: on the range 0..5 with step 2, after two
    calls the index is 4; the third call reflects the candidate 6 to 4. *)
Lemma bounce_reflects_at_bounds_witness :
  let st := after 2 bounce_0_5_by_2 in
  let st2 := fst (range_iterator sample_hash st bounce_0_5_by_2) in
  direction st2 = -1 /\ current_index st2 = Some 4
  /\ cycle_completed st2 = false.
Proof.
  exact (proj1 (bounce_reflects_at_bounds sample_hash
                  (after 2 bounce_0_5_by_2) (after 2 bounce_0_5_by_2)
                  bounce_0_5_by_2 (Frame.mk false [] (-1) 5 4) (PInt 4)
                  eq_refl eq_refl eq_refl)
               eq_refl).
Defined.

(** With start=5 above end=1 a candidate can lie below the lower bound
    and above the upper one.  A first call with a list of five values
    clamps the index to 4 and rebounds to 3, direction -1; the next call,
    without the list, detects no change and goes on from 3 on the range:
    the candidate 2 is below L = 5, yet the test against U = 1 comes
    first: the direction stays -1, the index becomes 1 - (2 - 1) = 0, not
    5 + (5 - 2) = 8, and the flag is false. *)
Lemma bounce_below_start_rebounds_downwards :
  let a := bounce_5_1_by_1 in
  let st := fst (range_iterator sample_hash init_state
                   (with_value_list (Some five_values) a)) in
  let f := Frame.mk false [] (-1) 1 3 in
  let candidate := Frame.current_index f + step a * direction st in
  let st2 := fst (range_iterator sample_hash st a) in
  mode a = "bounce"%string
  /\ cursor_of st = (Some 3, -1, false)
  /\ prepare sample_hash st a = (st, inl f)
  /\ candidate = 2 /\ lower_bound a f = 5 /\ upper_bound f = 1
  /\ candidate < lower_bound a f
  /\ snd (range_iterator sample_hash st a)
     = Returned (PInt 3) (PInt 0) false
  /\ ~ (direction st2 = 1
        /\ current_index st2
           = Some (lower_bound a f + (lower_bound a f - candidate))
        /\ cycle_completed st2 = true)
  /\ cursor_of st2 = (Some 0, -1, false).
Proof.
  cbv zeta. repeat split; try (vm_compute; reflexivity).
  intros (D & _). vm_compute in D. discriminate D.
Qed.

(** Five calls with the malformed text "1,x,3" and five calls with the
    empty text bring the two instances to the index 5; the sixth calls
    return the same tuple, and so do twelve calls in a row. *)
Lemma malformed_custom_values_fall_back_witness :
  snd (range_iterator sample_hash
         (after 5 (with_custom_values "" cycle_malformed))
         (with_custom_values "" cycle_malformed))
  = snd (range_iterator sample_hash (after 5 cycle_malformed) cycle_malformed)
  /\ snd (run sample_hash init_state
            (repeat (with_custom_values "" cycle_malformed) 12))
     = snd (run sample_hash init_state (repeat cycle_malformed 12)).
Proof.
  destruct (malformed_custom_values_fall_back sample_hash
              (after 5 cycle_malformed) cycle_malformed
              (ex_intro _ "x"%string
                 (conj (or_intror (or_introl eq_refl)) eq_refl)))
    as (_ & _ & _ & S & R).
  split.
  - apply S.
    + reflexivity.
    + repeat split; try reflexivity. intros l E. discriminate E.
    + repeat split; try reflexivity. intros l E. discriminate E.
  - apply (R (repeat cycle_malformed 12)). repeat constructor.
Defined.

(** In the steady state of the malformed text "1,x,3" (five calls made, the
    index at 5) the call goes on to (5, 6, false), whereas the same call
    with the empty text sees a changed text, resets and returns
    (0, 1, false). *)
Lemma malformed_text_differs_from_empty_text :
  malformed (custom_values cycle_malformed)
  /\ after 5 cycle_malformed
     = mkState (Some 5) 1 false "1,x,3" (Some 0) (Some 10) (Some 1)
               (Some "cycle"%string) None
  /\ snd (range_iterator sample_hash (after 5 cycle_malformed) cycle_malformed)
     = Returned (PInt 5) (PInt 6) false
  /\ snd (range_iterator sample_hash (after 5 cycle_malformed)
            (with_custom_values "" cycle_malformed))
     = Returned (PInt 0) (PInt 1) false.
Proof.
  split.
  - exists "x"%string. split; [simpl; auto|reflexivity].
  - repeat split; vm_compute; reflexivity.
Qed.


(** Three calls bring the index of the range 0..3 to 3; five more calls in
    once mode all return (3, 3, true). *)
Lemma once_0_3_stays_at_end_witness :
  snd (run sample_hash (after 3 once_0_3) (repeat once_0_3 5))
  = repeat (Returned (PInt 3) (PInt 3) true) 5
  /\ current_index (fst (run sample_hash (after 3 once_0_3)
                           (repeat once_0_3 5))) = Some 3
  /\ snapshot_is sample_hash once_0_3
       (fst (run sample_hash (after 3 once_0_3) (repeat once_0_3 5))).
Proof.
  apply (once_0_3_stays_at_end sample_hash (after 3 once_0_3) 5).
  - reflexivity.
  - repeat split; try reflexivity. intros l H. discriminate H.
Defined.

(** Three calls with step 1 bring the index of the range 0..10 to 3; the
    next call, with step 2, starts again from 0. *)
Lemma changed_configuration_resets_witness :
  snd (range_iterator sample_hash (after 3 cycle_0_10)
         (with_step 2 cycle_0_10))
  = Returned (PInt 0) (PInt 2) false.
Proof.
  refine (proj1 (proj2 (proj2
           (changed_configuration_resets sample_hash (after 3 cycle_0_10)
              (with_step 2 cycle_0_10) _)))).
  right. right. right. right. left. discriminate.
Defined.


(** On a fresh instance the empty list leaves the frame of the plain range
    0..10. *)
Lemma empty_value_list_uses_range_witness :
  exists st1 i,
    prepare sample_hash init_state (with_value_list (Some []) cycle_0_10)
    = (st1, inl (Frame.mk false [] (-1) 10 i)).
Proof.
  exact (proj1 (empty_value_list_uses_range sample_hash init_state
                  (with_value_list (Some []) cycle_0_10) 10
                  eq_refl eq_refl)).
Defined.

(** After three calls without a list the index of the range 0..10 is 3 and
    no fingerprint is stored.  The next call without a list returns
    (3, 4, false); with the empty list the fingerprint differs from the
    stored [None], the cursor resets and the call returns (0, 1, false). *)
Lemma empty_list_differs_from_no_list :
  process_custom_values (custom_values cycle_0_10) (end_ cycle_0_10)
  = CustomDone None 10
  /\ after 3 cycle_0_10
     = mkState (Some 3) 1 false "" (Some 0) (Some 10) (Some 1)
               (Some "cycle"%string) None
  /\ snd (range_iterator sample_hash (after 3 cycle_0_10)
            (with_value_list (Some []) cycle_0_10))
     = Returned (PInt 0) (PInt 1) false
  /\ snd (range_iterator sample_hash (after 3 cycle_0_10)
            (with_value_list None cycle_0_10))
     = Returned (PInt 3) (PInt 4) false.
Proof. repeat split; vm_compute; reflexivity. Qed.

(** Bouncing over 0..5 with step 2 is well formed (2 <= 5 - 0).  Three
    calls on a fresh instance leave the index 4 and the direction -1;
    twenty more calls from there all return and the index ends within
    0..5. *)
Lemma well_formed_run_in_bounds_witness :
  Forall returned
    (snd (run sample_hash (after 3 bounce_0_5_by_2)
            (repeat bounce_0_5_by_2 20)))
  /\ in_bounds bounce_0_5_by_2 0 5
       (fst (run sample_hash (after 3 bounce_0_5_by_2)
               (repeat bounce_0_5_by_2 20))).
Proof.
  destruct (well_formed_run_in_bounds sample_hash (after 3 bounce_0_5_by_2)
              bounce_0_5_by_2 0 5 20) as [F I].
  - unfold well_formed. split; [reflexivity|].
    split; [discriminate|]. split; [discriminate|]. split; [discriminate|].
    right. right. split; [reflexivity|discriminate].
  - right. right. split.
    + right. exists (repeat bounce_0_5_by_2 3). reflexivity.
    + exists 4. split; [reflexivity|]. split; discriminate.
  - split; [exact F|]. apply I. discriminate.
Defined.

(** The same run after a change of mode: the first call of the cycle over
    0..10 resets the cursor that the bounce left with the direction -1. *)
Lemma mode_change_starts_within :
  starts_within sample_hash cycle_0_10 0 10 (after 3 bounce_0_5_by_2)
  /\ direction (after 3 bounce_0_5_by_2) = -1
  /\ range_iterator sample_hash (after 3 bounce_0_5_by_2) cycle_0_10
     = (after 1 cycle_0_10, Returned (PInt 0) (PInt 1) false).
Proof.
  split; [left; reflexivity|]. split; vm_compute; reflexivity.
Qed.

(** The direction -1 under the snapshot of a cycle is what the premise
    leaves out: no run leaves such a state, and from it the cycle over
    0..10 commits the index -1. *)
Lemma backward_cycle_state_unreachable :
  ~ reachable sample_hash backward_cycle_state
  /\ ~ starts_within sample_hash cycle_0_10 0 10 backward_cycle_state
  /\ range_iterator sample_hash backward_cycle_state cycle_0_10
     = (mkState (Some (-1)) (-1) false "" (Some 0) (Some 10) (Some 1)
                (Some "cycle"%string) None,
        Returned (PInt 0) (PInt (-1)) false).
Proof.
  assert (N : ~ reachable sample_hash backward_cycle_state).
  { intros R. apply reachable_direction_settled in R.
    destruct R as [R | [[_ R] | R]]; vm_compute in R; discriminate R. }
  split; [exact N|]. split; [|vm_compute; reflexivity].
  intros [S | [S | [[[D | [M _]] | R] _]]]; try discriminate.
  now apply N.
Qed.

(** Bouncing over the list "1,2" with step 5 is not: the step is wider than
    the bounds 0..1. *)
Lemma bounce_pair_by_5_not_well_formed :
  bounds bounce_pair_by_5 = Some (0, 1)
  /\ ~ well_formed bounce_pair_by_5 0 1.
Proof.
  split; [vm_compute; reflexivity|].
  intros (_ & _ & _ & _ & [M | [M | [_ W]]]); try discriminate M.
  simpl in W. lia.
Qed.

(** ** Closed instances of the further properties *)

(** With start=5 above end=1 the call still returns: the bounce reflects
    the candidate 8 at the upper bound 1 to -6. *)
Lemma range_mode_always_returns_witness :
  exists i j b,
    snd (range_iterator sample_hash init_state bounce_5_1_by_3)
    = Returned (PInt i) (PInt j) b
    /\ current_index (fst (range_iterator sample_hash init_state
                             bounce_5_1_by_3)) = Some j.
Proof.
  apply (range_mode_always_returns sample_hash init_state bounce_5_1_by_3).
  - right. left. reflexivity.
  - split; reflexivity.
Defined.

(** With the mode "zigzag" the first call on a fresh instance raises
    [UnboundLocalError]. *)
Lemma unknown_mode_never_returns_witness :
  ~ returned (snd (range_iterator sample_hash init_state zigzag_0_10)).
Proof.
  refine (proj1 (unknown_mode_never_returns sample_hash init_state
                   zigzag_0_10 _)).
  intros [H | [H | H]]; discriminate H.
Defined.

(** The literal 1e400 is read as an infinity: the call raises
    [OverflowError]. *)
Lemma infinity_in_custom_values_raises_witness :
  snd (range_iterator sample_hash init_state cycle_1e400)
  = Raised OverflowError.
Proof.
  refine (proj1 (infinity_in_custom_values_raises sample_hash init_state
                   cycle_1e400 _)).
  vm_compute. reflexivity.
Defined.

(** Four calls with [reset_counter] set all return (0, 1, false). *)
Lemma reset_counter_pins_the_cursor_witness :
  snd (run sample_hash init_state (repeat cycle_0_10_reset 4))
  = repeat (Returned (PInt 0) (PInt 1) false) 4.
Proof.
  exact (reset_counter_pins_the_cursor sample_hash init_state
           cycle_0_10_reset 4 eq_refl).
Defined.

(** Four calls over a list of five values bring the index to 4; the next
    call, without the list, goes on from 4 over the range 0..1. *)
Lemma dropping_the_list_does_not_reset_witness :
  prepare sample_hash (after 4 cycle_five_values)
          (with_value_list None cycle_five_values)
  = (after 4 cycle_five_values, inl (Frame.mk false [] (-1) 1 4)).
Proof.
  assert (E : after 4 cycle_five_values
              = fst (range_iterator sample_hash (after 3 cycle_five_values)
                       cycle_five_values))
    by (vm_compute; reflexivity).
  rewrite E.
  refine (proj1 (proj2 (proj2
    (dropping_the_list_does_not_reset sample_hash
       (after 3 cycle_five_values) cycle_five_values five_values 4
       eq_refl eq_refl eq_refl _)))).
  vm_compute. reflexivity.
Defined.

(** That call returns 4 as its current value, above end = 1. *)
Lemma dropped_list_leaves_index_above_end :
  snd (range_iterator sample_hash (after 4 cycle_five_values)
         (with_value_list None cycle_five_values))
  = Returned (PInt 4) (PInt 0) true.
Proof. vm_compute. reflexivity. Qed.

(** The text "1, 2.0 ,3.5" has two commas and gives three values; 2.0 has
    become the int 2. *)
Lemma parsed_custom_values_shape_witness :
  List.length [PInt 1; PInt 2; PFloat (S754_finite false 7881299347898368 (-51))]
  = S (count_commas "1, 2.0 ,3.5")
  /\ Forall normalised
       [PInt 1; PInt 2; PFloat (S754_finite false 7881299347898368 (-51))].
Proof.
  apply (parsed_custom_values_shape "1, 2.0 ,3.5").
  vm_compute. reflexivity.
Defined.

(** The declared defaults are admitted and, with no list, well formed. *)
Lemma admitted_arguments_witness :
  well_formed cycle_0_10 0 10.
Proof.
  refine (proj2 (proj2 (proj2 (proj2
    (admitted_arguments cycle_0_10 eq_refl)))) _ _ _).
  - split; reflexivity.
  - discriminate.
  - discriminate.
Defined.

(** What the declarations admit need not be well formed: a step wider
    than the range, a start above the end. *)
Lemma admitted_not_well_formed :
  admitted bounce_0_1_by_5 = true /\ ~ well_formed bounce_0_1_by_5 0 1
  /\ admitted bounce_5_1_by_3 = true /\ ~ well_formed bounce_5_1_by_3 5 1.
Proof.
  split; [reflexivity|]. split.
  - intros (_ & _ & _ & _ & [M | [M | [_ W]]]); try discriminate M.
    simpl in W. lia.
  - split; [reflexivity|]. intros (_ & H & _). simpl in H. lia.
Qed.

(** Over 2..10 with step 3 the stops are 2, 5 and 8: the sixth call is at
    the last stop and wraps to 2. *)
Lemma range_cycle_closed_form_witness :
  outcome_after sample_hash init_state cycle_2_10_by_3 5
  = Returned (PInt 8) (PInt 2) true.
Proof.
  refine (range_cycle_closed_form sample_hash cycle_2_10_by_3 5
            eq_refl (conj eq_refl eq_refl) eq_refl _ _); discriminate.
Defined.

(** Over the list "1,2,3" with step 2 the second call reads the index 2
    and wraps to (2 + 2) mod 3 = 1. *)
Lemma list_cycle_closed_form_witness :
  outcome_after sample_hash init_state cycle_123_by_2 1
  = Returned (PInt 3) (PInt 2) true.
Proof.
  destruct (list_cycle_closed_form sample_hash cycle_123_by_2
              [PInt 1; PInt 2; PInt 3] 1) as (cur & nxt & Hc & Hn & E).
  - reflexivity.
  - split; [discriminate|]. exists (Some [PInt 1; PInt 2; PInt 3]), 2.
    split; reflexivity.
  - reflexivity.
  - discriminate.
  - discriminate.
  - injection Hc as <-. injection Hn as <-. exact E.
Defined.

(** Over 0..3 in once mode the sixth call on a fresh instance holds the
    index 3 and returns (3, 3, true). *)
Lemma once_closed_form_witness :
  outcome_after sample_hash init_state once_0_3 5
  = Returned (PInt 3) (PInt 3) true.
Proof.
  destruct (once_closed_form sample_hash once_0_3 0 3 5)
    as (cur & nxt & E & Hr & _).
  - unfold well_formed. split; [reflexivity|].
    split; [discriminate|]. split; [discriminate|]. split; [discriminate|].
    right. left. reflexivity.
  - reflexivity.
  - reflexivity.
  - destruct (Hr (conj eq_refl eq_refl)) as [-> ->]. exact E.
Defined.

(** Over 0..4 with step 2 the period is four calls: the fifth call is back
    at 0, returns (0, 2) and reports the completed cycle. *)
Lemma bounce_closed_form_witness :
  outcome_after sample_hash init_state bounce_0_4_by_2 4
  = Returned (PInt 0) (PInt 2) true.
Proof.
  destruct (bounce_closed_form sample_hash bounce_0_4_by_2 0 4 2 4)
    as (cur & nxt & E & Hr & _).
  - reflexivity.
  - reflexivity.
  - reflexivity.
  - discriminate.
  - discriminate.
  - reflexivity.
  - reflexivity.
  - destruct (Hr (conj eq_refl eq_refl)) as [-> ->]. exact E.
Defined.

(** " 1 ,  2,3 " parses as "1,2,3" does, and the first calls with the two
    texts return the same tuple. *)
Lemma surrounding_white_space_is_ignored_witness :
  process_custom_values " 1 ,  2,3 " 10 = process_custom_values "1,2,3" 10
  /\ snd (range_iterator sample_hash init_state cycle_custom_123_spaced)
     = snd (range_iterator sample_hash init_state cycle_custom_123).
Proof.
  destruct (surrounding_white_space_is_ignored sample_hash
              " 1 ,  2,3 " "1,2,3") as [P Q].
  - vm_compute. reflexivity.
  - split.
    + exact (P 10).
    + apply (Q init_state cycle_custom_123_spaced); reflexivity.
Defined.

(** The first call of a bounce over "1,2" with step 5 raises and stores the
    index -3; three more calls raise the same way and change nothing. *)
Lemma stored_index_below_list_wedges_witness :
  run sample_hash (after 1 bounce_pair_by_5) (repeat bounce_pair_by_5 3)
  = (after 1 bounce_pair_by_5, repeat (Raised IndexError) 3).
Proof.
  apply (stored_index_below_list_wedges sample_hash
           (after 1 bounce_pair_by_5) bounce_pair_by_5
           [PInt 1; PInt 2] (-3) 3).
  - split; [discriminate|].
    exists (Some [PInt 1; PInt 2]), 1. split; vm_compute; reflexivity.
  - reflexivity.
  - repeat split; try (vm_compute; reflexivity). discriminate.
  - vm_compute. reflexivity.
  - vm_compute. reflexivity.
Defined.

(** Over 0..1 with step 5 the fourth call returns (-11, 16): both are
    outside the range, and -11 is the index after three calls. *)
Lemma wide_bounce_diverges_witness :
  outcome_after sample_hash init_state bounce_0_1_by_5 3
  = Returned (PInt (-11)) (PInt 16) true
  /\ ~ (0 <= overshoot_index bounce_0_1_by_5 3 <= 1).
Proof.
  destruct (wide_bounce_diverges sample_hash bounce_0_1_by_5 3) as [E O].
  - reflexivity.
  - split; reflexivity.
  - reflexivity.
  - discriminate.
  - reflexivity.
  - split; [exact E|]. apply O. reflexivity.
Defined.

(** With start=5 and end=1 the fifth call of a cycle still returns
    (5, 5, true), and the third call of a once returns (1, 1, true). *)
Lemma start_above_end_witness :
  outcome_after sample_hash init_state cycle_5_1 4
  = Returned (PInt 5) (PInt 5) true
  /\ outcome_after sample_hash init_state once_5_1 2
     = Returned (PInt 1) (PInt 1) true.
Proof.
  split.
  - apply (start_above_end sample_hash cycle_5_1 4);
      [reflexivity | split; reflexivity | reflexivity | reflexivity
      | discriminate].
  - apply (start_above_end sample_hash once_5_1 2);
      [reflexivity | split; reflexivity | reflexivity | reflexivity
      | discriminate].
Defined.
